(** * MeetingSessionConfiguration: a shallow embedding and its properties

    The development follows [src/meetingsession/MeetingSessionConfiguration.ts]:
    the recursive key normalisation [toLowerCasePropertyNames], the conversion
    [convertMapToObject], and the constructor that reads the normalised
    responses into the configuration record.

    - A raw response is what [for (const key in jsonObject)] sees: the own
      enumerable properties of a plain object, in enumeration order, hence an
      association list.  The order matters, because [Map.prototype.set]
      overwrites.
    - The [Map] that normalisation builds, and the plain object it is
      converted to, are only ever read by key, so both are finite maps.
    - A property read that faults ([undefined.audiohosturl]) is an abrupt
      completion; the constructor lives in a small error monad. *)

From Stdlib Require Import ZArith Ascii String List.
From stdpp Require Import gmap strings list fin_maps.

Set Warnings "-register-all".
Local Open Scope string_scope.

(** ** Strings *)

Module Str.

(** [String.prototype.toLowerCase], on the ASCII letters: a string is a
    sequence of bytes, and a byte outside [A-Z] is left as it is.  Every
    property name the constructor reads is ASCII.  On a key with a character
    outside ASCII the case mapping of the platform is that of Unicode, which
    this definition does not describe; the statements that depend on which
    name a key of a response lower-cases to are stated for responses whose
    keys are ASCII ([asciiKeys]). *)
Definition lowerChar (c : ascii) : ascii :=
  let n := nat_of_ascii c in
  if (65 <=? n)%nat && (n <=? 90)%nat then ascii_of_nat (n + 32) else c.

Fixpoint toLowerCase (s : string) : string :=
  match s with
  | EmptyString => EmptyString
  | String c rest => String (lowerChar c) (toLowerCase rest)
  end.

End Str.

Export Str.

(** ** Values *)

(** What a response can hold.  [Object.prototype.toString.apply] tells the
    constructors apart: [JObject] is ['[object Object]'], [JString] is
    ['[object String]'], and the other four are everything else.  The payload
    of a number is never inspected. *)
Inductive jsvalue : Type :=
  | JNull
  | JBoolean (b : bool)
  | JNumber (n : Z)
  | JString (s : string)
  | JArray (elements : list jsvalue)
  | JObject (properties : list (string * jsvalue)).

(** The values that survive normalisation: strings, and maps of them. *)
Inductive nvalue : Type :=
  | NString (s : string)
  | NObject (m : gmap string nvalue).

(** The result of reading a property: a stored value, or [undefined].
    [null] is what the field initialisers of the class write. *)
Inductive jsfield : Type :=
  | Undefined
  | Null
  | Val (v : nvalue).

(** Evaluation either completes or throws; the only fault of this code is the
    [TypeError] of reading a property of [undefined]. *)
Inductive completion (A : Type) : Type :=
  | Normal (a : A)
  | TypeError.

Arguments Normal {A} a.
Arguments TypeError {A}.

#[global] Instance completion_bind : MBind completion :=
  λ A B k c,
    match c with
    | Normal a => k a
    | TypeError => TypeError
    end.

(** ** Normalisation *)

(** The body of the loop of [toLowerCasePropertyNames] for one property: the
    value that is stored, [None] when neither branch of the [if] applies. *)
Fixpoint lowerCased (value : jsvalue) : option nvalue :=
  match value with
  | JObject o =>
      Some (NObject (fold_left
        (λ output '(key, v),
           match lowerCased v with
           | Some n => <[toLowerCase key := n]> output
           | None => output
           end) o ∅))
  | JString s => Some (NString s)
  | _ => None
  end.

(** [output.set(key.toLowerCase(), ...)], when one of the branches applies. *)
Definition setLowerCased (output : gmap string nvalue) (entry : string * jsvalue)
    : gmap string nvalue :=
  let '(key, v) := entry in
  match lowerCased v with
  | Some n => <[toLowerCase key := n]> output
  | None => output
  end.

Definition toLowerCasePropertyNames (jsonObject : list (string * jsvalue))
    : gmap string nvalue :=
  fold_left setLowerCased jsonObject ∅.

(** [obj[key] = ...] on a fresh object literal stores an own property, except
    for the key [__proto__]: that assignment goes to the prototype setter, and
    [JSON.stringify] then serialises own properties only.  The round trip
    through [JSON.stringify] and [JSON.parse] copies strings and objects as
    they are. *)
Fixpoint convertValue (value : nvalue) : nvalue :=
  match value with
  | NObject m => NObject (delete "__proto__" (convertValue <$> m))
  | NString s => NString s
  end.

Definition convertMapToObject (map : gmap string nvalue) : gmap string nvalue :=
  delete "__proto__" (convertValue <$> map).

(** ** Property reads *)

(** [base.name] on a value.  A string primitive has none of the names the
    constructor reads, and neither has [Object.prototype]. *)
Definition getProperty (base : nvalue) (name : string) : jsfield :=
  match base with
  | NObject m =>
      match m !! name with
      | Some v => Val v
      | None => Undefined
      end
  | NString _ => Undefined
  end.

(** [base.name] where [base] may be [undefined]. *)
Definition readMember (base : jsfield) (name : string) : completion jsfield :=
  match base with
  | Val v => Normal (getProperty v name)
  | Undefined | Null => TypeError
  end.

(** The test of an [if]: objects and non-empty strings are truthy. *)
Definition ToBoolean (x : jsfield) : bool :=
  match x with
  | Val (NObject _) => true
  | Val (NString s) => negb (String.eqb s EmptyString)
  | Undefined | Null => false
  end.

(** [if (response.name) { response = response.name; }] *)
Definition unwrap (name : string) (response : nvalue) : nvalue :=
  match getProperty response name with
  | Val v => if ToBoolean (Val v) then v else response
  | Undefined | Null => response
  end.

(** ** The configuration record *)

Record MeetingSessionURLs : Type := {
  audioHostURL : jsfield;
  screenDataURL : jsfield;
  screenSharingURL : jsfield;
  screenViewingURL : jsfield;
  signalingURL : jsfield;
  turnControlURL : jsfield
}.

Record MeetingSessionCredentials : Type := {
  attendeeId : jsfield;
  externalUserId : jsfield;
  joinToken : jsfield
}.

Record ScreenSharingSessionOptions : Type := {
  bitRate : option Z
}.

(** The health policy configuration and the two policies are collaborators;
    a policy is known here by the argument it was constructed with. *)
Inductive ConnectionHealthPolicyConfiguration : Type :=
  | newConnectionHealthPolicyConfiguration.

Inductive VideoDownlinkBandwidthPolicy : Type :=
  | AllHighestVideoBandwidthPolicy (selfAttendeeId : jsfield).

Inductive VideoUplinkBandwidthPolicy : Type :=
  | NScaleVideoUplinkBandwidthPolicy (selfAttendeeId : jsfield).

(** A field of object type holds [None] for [null]. *)
Record MeetingSessionConfiguration : Type := {
  meetingId : jsfield;
  credentials : option MeetingSessionCredentials;
  urls : option MeetingSessionURLs;
  connectionTimeoutMs : Z;
  screenSharingTimeoutMs : Z;
  screenViewingTimeoutMs : Z;
  attendeePresenceTimeoutMs : Z;
  screenSharingSessionOptions : ScreenSharingSessionOptions;
  connectionHealthPolicyConfiguration : ConnectionHealthPolicyConfiguration;
  enableWebAudio : bool;
  enableUnifiedPlanForChromiumBasedBrowsers : bool;
  enableSimulcastForUnifiedPlanChromiumBasedBrowsers : bool;
  videoDownlinkBandwidthPolicy : option VideoDownlinkBandwidthPolicy;
  videoUplinkBandwidthPolicy : option VideoUplinkBandwidthPolicy
}.

(** The field initialisers, which run before the constructor body. *)
Definition fieldInitializers : MeetingSessionConfiguration := {|
  meetingId := Null;
  credentials := None;
  urls := None;
  connectionTimeoutMs := 15000;
  screenSharingTimeoutMs := 5000;
  screenViewingTimeoutMs := 5000;
  attendeePresenceTimeoutMs := 0;
  screenSharingSessionOptions := {| bitRate := None |};
  connectionHealthPolicyConfiguration := newConnectionHealthPolicyConfiguration;
  enableWebAudio := false;
  enableUnifiedPlanForChromiumBasedBrowsers := true;
  enableSimulcastForUnifiedPlanChromiumBasedBrowsers := false;
  videoDownlinkBandwidthPolicy := None;
  videoUplinkBandwidthPolicy := None
|}.

(** [this.field = x], for the fields the constructor writes. *)
Section Assignments.

Context (this : MeetingSessionConfiguration).

Definition set_meetingId (x : jsfield) : MeetingSessionConfiguration :=
  let '(Build_MeetingSessionConfiguration _ c u t1 t2 t3 t4 o h wa up sc dl ul) := this in
  Build_MeetingSessionConfiguration x c u t1 t2 t3 t4 o h wa up sc dl ul.

Definition set_credentials (x : option MeetingSessionCredentials)
    : MeetingSessionConfiguration :=
  let '(Build_MeetingSessionConfiguration m _ u t1 t2 t3 t4 o h wa up sc dl ul) := this in
  Build_MeetingSessionConfiguration m x u t1 t2 t3 t4 o h wa up sc dl ul.

Definition set_urls (x : option MeetingSessionURLs) : MeetingSessionConfiguration :=
  let '(Build_MeetingSessionConfiguration m c _ t1 t2 t3 t4 o h wa up sc dl ul) := this in
  Build_MeetingSessionConfiguration m c x t1 t2 t3 t4 o h wa up sc dl ul.

Definition set_screenSharingSessionOptions (x : ScreenSharingSessionOptions)
    : MeetingSessionConfiguration :=
  let '(Build_MeetingSessionConfiguration m c u t1 t2 t3 t4 _ h wa up sc dl ul) := this in
  Build_MeetingSessionConfiguration m c u t1 t2 t3 t4 x h wa up sc dl ul.

Definition set_videoDownlinkBandwidthPolicy (x : option VideoDownlinkBandwidthPolicy)
    : MeetingSessionConfiguration :=
  let '(Build_MeetingSessionConfiguration m c u t1 t2 t3 t4 o h wa up sc _ ul) := this in
  Build_MeetingSessionConfiguration m c u t1 t2 t3 t4 o h wa up sc x ul.

Definition set_videoUplinkBandwidthPolicy (x : option VideoUplinkBandwidthPolicy)
    : MeetingSessionConfiguration :=
  let '(Build_MeetingSessionConfiguration m c u t1 t2 t3 t4 o h wa up sc dl _) := this in
  Build_MeetingSessionConfiguration m c u t1 t2 t3 t4 o h wa up sc dl x.

End Assignments.

(** ** The constructor *)

(** Lines 141-145 and 147-149: a response that is supplied is an object, so
    the test of the [if] succeeds, and the response is replaced by its
    normalised copy. *)
Definition normalized (response : list (string * jsvalue)) : nvalue :=
  NObject (convertMapToObject (toLowerCasePropertyNames response)).

(** Lines 154-160: a new URLs record and its six assignments, each of which
    evaluates [createMeetingResponse.mediaplacement] again and reads one of
    its properties. *)
Definition readURLs (createMeetingResponse : nvalue) : completion MeetingSessionURLs :=
  let mediaplacement := getProperty createMeetingResponse "mediaplacement" in
  audioHost ← readMember mediaplacement "audiohosturl";
  screenData ← readMember mediaplacement "screendataurl";
  screenSharing ← readMember mediaplacement "screensharingurl";
  screenViewing ← readMember mediaplacement "screenviewingurl";
  signaling ← readMember mediaplacement "signalingurl";
  turnControl ← readMember mediaplacement "turncontrolurl";
  Normal {| audioHostURL := audioHost;
            screenDataURL := screenData;
            screenSharingURL := screenSharing;
            screenViewingURL := screenViewing;
            signalingURL := signaling;
            turnControlURL := turnControl |}.

(** Lines 166-169: a new credentials record and its three assignments. *)
Definition readCredentials (createAttendeeResponse : nvalue) : MeetingSessionCredentials :=
  {| attendeeId := getProperty createAttendeeResponse "attendeeid";
     externalUserId := getProperty createAttendeeResponse "externaluserid";
     joinToken := getProperty createAttendeeResponse "jointoken" |}.

(** [this.credentials ? this.credentials.attendeeId : null] *)
Definition selfAttendeeId (this : MeetingSessionConfiguration) : jsfield :=
  match credentials this with
  | Some c => attendeeId c
  | None => Null
  end.

(** The constructor.  [screenShareSendsOnlyKeyframes] is the answer of
    [new DefaultBrowserBehavior().screenShareSendsOnlyKeyframes()]. *)
Definition constructor
    (createMeetingResponse createAttendeeResponse : option (list (string * jsvalue)))
    (screenShareSendsOnlyKeyframes : bool)
    : completion MeetingSessionConfiguration :=
  let this := fieldInitializers in
  let createAttendeeResponse := normalized <$> createAttendeeResponse in
  this ←
    match createMeetingResponse with
    | Some response =>
        let createMeetingResponse := unwrap "meeting" (normalized response) in
        let this := set_meetingId this (getProperty createMeetingResponse "meetingid") in
        urls ← readURLs createMeetingResponse;
        Normal (set_urls this (Some urls))
    | None => Normal this
    end;
  let this :=
    match createAttendeeResponse with
    | Some response =>
        let createAttendeeResponse := unwrap "attendee" response in
        set_credentials this (Some (readCredentials createAttendeeResponse))
    | None => this
    end in
  let this :=
    if screenShareSendsOnlyKeyframes
    then set_screenSharingSessionOptions this {| bitRate := Some 384000%Z |}
    else this in
  let this :=
    set_videoDownlinkBandwidthPolicy this
      (Some (AllHighestVideoBandwidthPolicy (selfAttendeeId this))) in
  let this :=
    set_videoUplinkBandwidthPolicy this
      (Some (NScaleVideoUplinkBandwidthPolicy (selfAttendeeId this))) in
  Normal this.

(** ** Vocabulary of the statements *)

(** What the loop stores for a value, by kind of value: a string as it is, a
    nested structure normalised, nothing for any other kind. *)
Definition keptValue (value : jsvalue) : option nvalue :=
  match value with
  | JString s => Some (NString s)
  | JObject o => Some (NObject (toLowerCasePropertyNames o))
  | JNull | JBoolean _ | JNumber _ | JArray _ => None
  end.

(** The values stored under [name], in the order of the loop. *)
Definition storedUnder (name : string) (entry : string * jsvalue) : option nvalue :=
  if decide (toLowerCase entry.1 = name) then keptValue entry.2 else None.

(** The entries the loop stores, in its order. *)
Definition storedEntry (entry : string * jsvalue) : option (string * nvalue) :=
  (λ n, (toLowerCase entry.1, n)) <$> keptValue entry.2.

Definition storedEntries (jsonObject : list (string * jsvalue)) : list (string * nvalue) :=
  omap storedEntry jsonObject.

(** A response with every property removed, at every depth, whose value is
    neither a string nor a nested structure. *)
Fixpoint pruneValue (value : jsvalue) : option jsvalue :=
  match value with
  | JString s => Some (JString s)
  | JObject o =>
      Some (JObject (omap (λ '(key, v), (λ v', (key, v')) <$> pruneValue v) o))
  | JNull | JBoolean _ | JNumber _ | JArray _ => None
  end.

Definition prune (jsonObject : list (string * jsvalue)) : list (string * jsvalue) :=
  omap (λ '(key, v), (λ v', (key, v')) <$> pruneValue v) jsonObject.

Fixpoint stringsAndObjectsOnly (value : jsvalue) : bool :=
  match value with
  | JString _ => true
  | JObject o => forallb (λ entry, stringsAndObjectsOnly entry.2) o
  | JNull | JBoolean _ | JNumber _ | JArray _ => false
  end.

(** Every key, at every depth, is its own lower-casing. *)
Inductive lowered : nvalue → Prop :=
  | lowered_string s : lowered (NString s)
  | lowered_object (m : gmap string nvalue) :
      (∀ name v, m !! name = Some v → toLowerCase name = name ∧ lowered v) →
      lowered (NObject m).

(** No two stored properties of one structure have the same lower-cased key,
    at every depth that normalisation visits. *)
Fixpoint collisionFree (value : jsvalue) : bool :=
  match value with
  | JObject o =>
      bool_decide (NoDup (omap (λ entry,
          match entry.2 with
          | JString _ | JObject _ => Some (toLowerCase entry.1)
          | _ => None
          end) o))
      && forallb (λ entry, collisionFree entry.2) o
  | _ => true
  end.

(** The same structure with the properties of its objects enumerated in
    another order, at any depth. *)
Inductive reordered : jsvalue → jsvalue → Prop :=
  | reordered_null : reordered JNull JNull
  | reordered_boolean b : reordered (JBoolean b) (JBoolean b)
  | reordered_number n : reordered (JNumber n) (JNumber n)
  | reordered_string s : reordered (JString s) (JString s)
  | reordered_array l1 l2 :
      Forall2 reordered l1 l2 → reordered (JArray l1) (JArray l2)
  | reordered_object o1 o o2 :
      o1 ≡ₚ o →
      Forall2 (λ e1 e2, e1.1 = e2.1 ∧ reordered e1.2 e2.2) o o2 →
      reordered (JObject o1) (JObject o2).

Definition reorderedResponse : relation (option (list (string * jsvalue))) :=
  option_Forall2 (λ o1 o2, reordered (JObject o1) (JObject o2)).

Definition collisionFreeResponse (response : option (list (string * jsvalue))) : bool :=
  from_option (λ o, collisionFree (JObject o)) true response.

(** ** Shapes and slots *)

(** The wrapped shape: the fields nested under one root key. *)
Definition wrapIn (key : string) (fields : list (string * jsvalue))
    : list (string * jsvalue) :=
  [(key, JObject fields)].

(** Whether the test [if (response.name)] of the unwrap step succeeds on a
    response.  A flat response is one on which it does not. *)
Definition holdsWrapper (name : string) (fields : list (string * jsvalue)) : bool :=
  ToBoolean (getProperty (normalized fields) name).

Definition flatResponse (name : string) (response : option (list (string * jsvalue)))
    : bool :=
  from_option (λ fields, negb (holdsWrapper name fields)) true response.

(** A slot holds a value when it is neither [undefined] nor [null]. *)
Definition present (x : jsfield) : bool :=
  match x with
  | Val _ => true
  | Undefined | Null => false
  end.

Definition urlSlots (u : MeetingSessionURLs) : list jsfield :=
  [audioHostURL u; screenDataURL u; screenSharingURL u;
   screenViewingURL u; signalingURL u; turnControlURL u].

Definition credentialSlots (c : MeetingSessionCredentials) : list jsfield :=
  [attendeeId c; externalUserId c; joinToken c].

(** Some slots hold a value and some do not. *)
Definition partiallyPopulated (slots : list jsfield) : bool :=
  existsb present slots && existsb (λ x, negb (present x)) slots.

(** ** Examples *)

Definition scenario1 : list (string * jsvalue) :=
  [("Meeting", JObject
      [("MeetingId", JString "m1");
       ("MediaPlacement", JObject
          [("AudioHostUrl", JString "a");
           ("ScreenDataUrl", JString "b");
           ("ScreenSharingUrl", JString "c");
           ("ScreenViewingUrl", JString "d");
           ("SignalingUrl", JString "e");
           ("TurnControlUrl", JString "f")])])].

Definition scenario2 : list (string * jsvalue) :=
  [("MeetingId", JString "m1");
   ("MediaPlacement", JObject
      [("AudioHostUrl", JString "a");
       ("ScreenDataUrl", JString "b");
       ("ScreenSharingUrl", JString "c");
       ("ScreenViewingUrl", JString "d");
       ("SignalingUrl", JString "e");
       ("TurnControlUrl", JString "f")])].

Definition scenario3 : list (string * jsvalue) :=
  [("AttendeeId", JString "att1");
   ("ExternalUserId", JString "ext1");
   ("JoinToken", JString "tok1")].

(** A meeting response without the nested URL structure. *)
Definition meetingIdOnly : list (string * jsvalue) :=
  [("MeetingId", JString "m1")].

(** An attendee response with one of the three fields. *)
Definition attendeeIdOnly : list (string * jsvalue) :=
  [("AttendeeId", JString "X")].

(** A meeting response with one of the six URLs. *)
Definition audioHostOnly : list (string * jsvalue) :=
  [("MediaPlacement", JObject [("AudioHostUrl", JString "a")])].

(** Two enumeration orders of one response in which two keys have the same
    lower-casing. *)
Definition collidingFirst : list (string * jsvalue) :=
  [("MeetingId", JString "m1");
   ("meetingid", JString "m2");
   ("MediaPlacement", JObject [])].

Definition collidingSecond : list (string * jsvalue) :=
  [("meetingid", JString "m2");
   ("MeetingId", JString "m1");
   ("MediaPlacement", JObject [])].

(** Two enumeration orders of one response without such keys. *)
Definition orderedFirst : list (string * jsvalue) :=
  [("MeetingId", JString "m1");
   ("MediaPlacement", JObject [("AudioHostUrl", JString "a"); ("SignalingUrl", JString "e")])].

Definition orderedSecond : list (string * jsvalue) :=
  [("MediaPlacement", JObject [("SignalingUrl", JString "e"); ("AudioHostUrl", JString "a")]);
   ("MeetingId", JString "m1")].

(** ** Further vocabulary *)

(** The same structure with the keys of its objects spelled in another
    letter-casing, at any depth. *)
Inductive sameUpToCase : jsvalue → jsvalue → Prop :=
  | sameUpToCase_null : sameUpToCase JNull JNull
  | sameUpToCase_boolean b : sameUpToCase (JBoolean b) (JBoolean b)
  | sameUpToCase_number n : sameUpToCase (JNumber n) (JNumber n)
  | sameUpToCase_string s : sameUpToCase (JString s) (JString s)
  | sameUpToCase_array l1 l2 :
      Forall2 sameUpToCase l1 l2 → sameUpToCase (JArray l1) (JArray l2)
  | sameUpToCase_object o1 o2 :
      Forall2 (λ e1 e2, toLowerCase e1.1 = toLowerCase e2.1
                        ∧ sameUpToCase e1.2 e2.2) o1 o2 →
      sameUpToCase (JObject o1) (JObject o2).

Definition sameUpToCaseResponse : relation (option (list (string * jsvalue))) :=
  option_Forall2 (λ o1 o2, sameUpToCase (JObject o1) (JObject o2)).

(** The nesting depth of a normalised value. *)
Fixpoint depth (v : nvalue) : nat :=
  match v with
  | NString _ => 0
  | NObject m => S (map_fold (λ _ v' acc, depth v' `max` acc) 0 m)
  end.

(** No key [__proto__], at any depth. *)
Inductive protoFree : nvalue → Prop :=
  | protoFree_string s : protoFree (NString s)
  | protoFree_object (m : gmap string nvalue) :
      m !! "__proto__" = None →
      (∀ name v, m !! name = Some v → protoFree v) →
      protoFree (NObject m).

(** No stored property, at any depth that normalisation visits, has a key
    that lower-cases to [__proto__]. *)
Fixpoint noProtoKey (value : jsvalue) : bool :=
  match value with
  | JObject o =>
      forallb (λ entry,
        match entry.2 with
        | JString _ | JObject _ =>
            negb (String.eqb (toLowerCase entry.1) "__proto__") && noProtoKey entry.2
        | _ => true
        end) o
  | _ => true
  end.

(** The names the constructor reads: at the root of a meeting response, at
    the root of an attendee response, and in the nested URL structure. *)
Definition meetingNames : list string := ["meeting"; "meetingid"; "mediaplacement"].

Definition attendeeNames : list string :=
  ["attendee"; "attendeeid"; "externaluserid"; "jointoken"].

Definition urlNames : list string :=
  ["audiohosturl"; "screendataurl"; "screensharingurl";
   "screenviewingurl"; "signalingurl"; "turncontrolurl"].

(** A response without the properties whose key lower-cases to none of
    [names]. *)
Definition keepRead (names : list string) (response : list (string * jsvalue))
    : list (string * jsvalue) :=
  filter (λ entry, toLowerCase entry.1 ∈ names) response.

(** What a read of [name] yields on the normalised copy of a response, in
    terms of the response: the last value stored under that name. *)
Definition rawField (name : string) (response : list (string * jsvalue)) : jsfield :=
  match last (omap (storedUnder name) response) with
  | Some n => Val (convertValue n)
  | None => Undefined
  end.

(** The structure whose fields the constructor reads after the unwrap step
    for the root key [name]: the response itself when the test of the unwrap
    step does not succeed on it, and the structure nested under the last
    stored property whose key lower-cases to [name] when that is a
    structure. *)
Inductive resolvesTo (name : string)
    : list (string * jsvalue) → list (string * jsvalue) → Prop :=
  | resolvesTo_flat fields :
      holdsWrapper name fields = false →
      resolvesTo name fields fields
  | resolvesTo_wrapped before key fields after :
      toLowerCase key = name →
      Forall (λ entry, storedUnder name entry = None) after →
      resolvesTo name (before ++ (key, JObject fields) :: after)%list fields.

(** The thirteen keys of the documented shapes, as a response spells them,
    and the ten strings it holds. *)
Record DocumentedKeys : Type := {
  kMeeting : string;
  kMeetingId : string;
  kMediaPlacement : string;
  kAudioHostUrl : string;
  kScreenDataUrl : string;
  kScreenSharingUrl : string;
  kScreenViewingUrl : string;
  kSignalingUrl : string;
  kTurnControlUrl : string;
  kAttendee : string;
  kExternalUserId : string;
  kAttendeeId : string;
  kJoinToken : string
}.

Record DocumentedValues : Type := {
  vMeetingId : string;
  vAudioHostUrl : string;
  vScreenDataUrl : string;
  vScreenSharingUrl : string;
  vScreenViewingUrl : string;
  vSignalingUrl : string;
  vTurnControlUrl : string;
  vExternalUserId : string;
  vAttendeeId : string;
  vJoinToken : string
}.

(** The keys are those of the documentation, in some letter-casing. *)
Definition spelled (k : DocumentedKeys) : Prop :=
  toLowerCase <$>
    [kMeeting k; kMeetingId k; kMediaPlacement k; kAudioHostUrl k;
     kScreenDataUrl k; kScreenSharingUrl k; kScreenViewingUrl k;
     kSignalingUrl k; kTurnControlUrl k; kAttendee k; kExternalUserId k;
     kAttendeeId k; kJoinToken k]
  = ["meeting"; "meetingid"; "mediaplacement"; "audiohosturl";
     "screendataurl"; "screensharingurl"; "screenviewingurl";
     "signalingurl"; "turncontrolurl"; "attendee"; "externaluserid";
     "attendeeid"; "jointoken"].

(** The fields of the second documented shape; the first nests them under
    the root keys. *)
Definition meetingFields (k : DocumentedKeys) (v : DocumentedValues)
    : list (string * jsvalue) :=
  [(kMeetingId k, JString (vMeetingId v));
   (kMediaPlacement k, JObject
      [(kAudioHostUrl k, JString (vAudioHostUrl v));
       (kScreenDataUrl k, JString (vScreenDataUrl v));
       (kScreenSharingUrl k, JString (vScreenSharingUrl v));
       (kScreenViewingUrl k, JString (vScreenViewingUrl v));
       (kSignalingUrl k, JString (vSignalingUrl v));
       (kTurnControlUrl k, JString (vTurnControlUrl v))])].

Definition attendeeFields (k : DocumentedKeys) (v : DocumentedValues)
    : list (string * jsvalue) :=
  [(kExternalUserId k, JString (vExternalUserId v));
   (kAttendeeId k, JString (vAttendeeId v));
   (kJoinToken k, JString (vJoinToken v))].

Definition expectedURLs (v : DocumentedValues) : MeetingSessionURLs :=
  {| audioHostURL := Val (NString (vAudioHostUrl v));
     screenDataURL := Val (NString (vScreenDataUrl v));
     screenSharingURL := Val (NString (vScreenSharingUrl v));
     screenViewingURL := Val (NString (vScreenViewingUrl v));
     signalingURL := Val (NString (vSignalingUrl v));
     turnControlURL := Val (NString (vTurnControlUrl v)) |}.

Definition expectedCredentials (v : DocumentedValues) : MeetingSessionCredentials :=
  {| attendeeId := Val (NString (vAttendeeId v));
     externalUserId := Val (NString (vExternalUserId v));
     joinToken := Val (NString (vJoinToken v)) |}.

(** The keys as the documentation spells them, and lower-cased. *)
Definition documentedKeys : DocumentedKeys :=
  {| kMeeting := "Meeting";
     kMeetingId := "MeetingId";
     kMediaPlacement := "MediaPlacement";
     kAudioHostUrl := "AudioHostUrl";
     kScreenDataUrl := "ScreenDataUrl";
     kScreenSharingUrl := "ScreenSharingUrl";
     kScreenViewingUrl := "ScreenViewingUrl";
     kSignalingUrl := "SignalingUrl";
     kTurnControlUrl := "TurnControlUrl";
     kAttendee := "Attendee";
     kExternalUserId := "ExternalUserId";
     kAttendeeId := "AttendeeId";
     kJoinToken := "JoinToken" |}.

Definition lowerCaseKeys : DocumentedKeys :=
  {| kMeeting := "meeting";
     kMeetingId := "meetingid";
     kMediaPlacement := "mediaplacement";
     kAudioHostUrl := "audiohosturl";
     kScreenDataUrl := "screendataurl";
     kScreenSharingUrl := "screensharingurl";
     kScreenViewingUrl := "screenviewingurl";
     kSignalingUrl := "signalingurl";
     kTurnControlUrl := "turncontrolurl";
     kAttendee := "attendee";
     kExternalUserId := "externaluserid";
     kAttendeeId := "attendeeid";
     kJoinToken := "jointoken" |}.

Definition scenarioValues : DocumentedValues :=
  {| vMeetingId := "m1";
     vAudioHostUrl := "a";
     vScreenDataUrl := "b";
     vScreenSharingUrl := "c";
     vScreenViewingUrl := "d";
     vSignalingUrl := "e";
     vTurnControlUrl := "f";
     vExternalUserId := "ext1";
     vAttendeeId := "att1";
     vJoinToken := "tok1" |}.

(** Scenario 1 with the keys in other letter-casings. *)
Definition scenario4 : list (string * jsvalue) :=
  [("meeting", JObject
      [("meetingID", JString "m1");
       ("MEDIAPLACEMENT", JObject
          [("audioHostUrl", JString "a");
           ("SCREENDATAURL", JString "b");
           ("screensharingurl", JString "c");
           ("ScreenViewingURL", JString "d");
           ("signalingUrl", JString "e");
           ("TurnControlUrl", JString "f")])])].

(** Scenario 1 with properties the constructor does not read, at the root
    and in the URL structure, and with flat fields beside the wrapper. *)
Definition scenario5 : list (string * jsvalue) :=
  [("MeetingId", JString "other");
   ("Region", JString "us-east-1");
   ("Meeting", JObject
      [("MeetingId", JString "m1");
       ("MediaPlacement", JObject
          [("AudioHostUrl", JString "a");
           ("ScreenDataUrl", JString "b");
           ("ScreenSharingUrl", JString "c");
           ("ScreenViewingUrl", JString "d");
           ("SignalingUrl", JString "e");
           ("TurnControlUrl", JString "f")])]);
   ("Count", JNumber 3)].

(** ** The scope of the key matching *)

(** A string of ASCII characters.  On such a key [toLowerCase] is
    [String.prototype.toLowerCase]; the statements that match the keys of a
    response against names are stated for responses with such keys. *)
Definition isAscii (s : string) : bool :=
  forallb (λ c, (nat_of_ascii c <? 128)%nat) (list_ascii_of_string s).

(** Every key of every structure that normalisation visits is ASCII. *)
Fixpoint asciiKeys (value : jsvalue) : bool :=
  match value with
  | JObject o => forallb (λ entry, isAscii entry.1 && asciiKeys entry.2) o
  | _ => true
  end.

Definition asciiKeysResponse (response : option (list (string * jsvalue))) : bool :=
  from_option (λ o, asciiKeys (JObject o)) true response.

(** Lower case, said without [toLowerCase]: [name] spells [key] in lower
    case when it has no upper-case letter and is [key] with each upper-case
    letter replaced by the letter 32 places further. *)
Definition isUpperCase (c : ascii) : bool :=
  (65 <=? nat_of_ascii c)%nat && (nat_of_ascii c <=? 90)%nat.

Fixpoint noUpperCase (s : string) : bool :=
  match s with
  | EmptyString => true
  | String c rest => negb (isUpperCase c) && noUpperCase rest
  end.

Fixpoint lowerCaseOf (key name : string) : bool :=
  match key, name with
  | EmptyString, EmptyString => true
  | String c key', String c' name' =>
      negb (isUpperCase c')
      && (Ascii.eqb c c'
          || (isUpperCase c && (nat_of_ascii c' =? nat_of_ascii c + 32)%nat))
      && lowerCaseOf key' name'
  | _, _ => false
  end.

(** No key, at any depth, has an upper-case letter. *)
Inductive withoutUpperCase : nvalue → Prop :=
  | withoutUpperCase_string s : withoutUpperCase (NString s)
  | withoutUpperCase_object (m : gmap string nvalue) :
      (∀ name v, m !! name = Some v → noUpperCase name = true ∧ withoutUpperCase v) →
      withoutUpperCase (NObject m).

(** The value, as the response holds it, of the last property in the order
    of the loop whose key lower-cases to [name] and whose value is a string
    or a nested structure. *)
Definition lastStored (name : string) (response : list (string * jsvalue))
    : option jsvalue :=
  last (omap (λ entry,
    if decide (toLowerCase entry.1 = name)
    then match entry.2 with
         | JString _ | JObject _ => Some entry.2
         | _ => None
         end
    else None) response).

(** The field [name] of a response whose root key is [root], in terms of the
    response: read from the structure under the root key when there is one,
    from the response itself when there is no root key or it holds the empty
    string, and [undefined] when the root key holds another string. *)
Definition fieldOfResponse (root name : string) (response : list (string * jsvalue))
    : jsfield :=
  match lastStored root response with
  | Some (JObject fields) => rawField name fields
  | Some (JString s) =>
      if String.eqb s EmptyString then rawField name response else Undefined
  | _ => rawField name response
  end.

(** A response with values of several kinds and keys in upper case. *)
Definition mixedKinds : list (string * jsvalue) :=
  [("MeetingId", JString "m1");
   ("Count", JNumber 3);
   ("Tags", JArray [JString "x"]);
   ("MediaPlacement", JObject [("AudioHostUrl", JString "a"); ("Ready", JBoolean true)])].

(** A wrapped attendee response with one of the three fields. *)
Definition wrappedAttendeeIdOnly : list (string * jsvalue) :=
  [("Attendee", JObject [("AttendeeId", JString "att1")])].

(** A meeting and an attendee response with properties the constructor does
    not read at their roots. *)
Definition scenario2WithRegion : list (string * jsvalue) :=
  [("Region", JString "us-east-1");
   ("MeetingId", JString "m1");
   ("MediaPlacement", JObject
      [("AudioHostUrl", JString "a");
       ("ScreenDataUrl", JString "b");
       ("ScreenSharingUrl", JString "c");
       ("ScreenViewingUrl", JString "d");
       ("SignalingUrl", JString "e");
       ("TurnControlUrl", JString "f")]);
   ("Count", JNumber 3)].

Definition scenario3WithCapabilities : list (string * jsvalue) :=
  [("AttendeeId", JString "att1");
   ("Capabilities", JObject [("Audio", JString "SendReceive")]);
   ("ExternalUserId", JString "ext1");
   ("JoinToken", JString "tok1")].

(** ** Induction on responses *)

Section jsvalue_induction.

Variable P : jsvalue → Prop.
Hypothesis Hnull : P JNull.
Hypothesis Hboolean : ∀ b, P (JBoolean b).
Hypothesis Hnumber : ∀ n, P (JNumber n).
Hypothesis Hstring : ∀ s, P (JString s).
Hypothesis Harray : ∀ l, Forall P l → P (JArray l).
Hypothesis Hobject : ∀ o, Forall (λ entry, P entry.2) o → P (JObject o).

Fixpoint jsvalue_nested_ind (v : jsvalue) : P v :=
  match v with
  | JNull => Hnull
  | JBoolean b => Hboolean b
  | JNumber n => Hnumber n
  | JString s => Hstring s
  | JArray l =>
      Harray l ((fix go (l : list jsvalue) : Forall P l :=
                   match l with
                   | [] => Forall_nil_2 P
                   | x :: l' => Forall_cons_2 P x l' (jsvalue_nested_ind x) (go l')
                   end) l)
  | JObject o =>
      Hobject o ((fix go (o : list (string * jsvalue))
                    : Forall (λ entry, P entry.2) o :=
                    match o with
                    | [] => Forall_nil_2 _
                    | entry :: o' =>
                        Forall_cons_2 (λ entry, P entry.2) entry o'
                          (jsvalue_nested_ind entry.2) (go o')
                    end) o)
  end.

End jsvalue_induction.

(** * Properties *)

(** ** Strings *)

Lemma lowerChar_idempotent c : lowerChar (lowerChar c) = lowerChar c.
Proof. by destruct c as [[] [] [] [] [] [] [] []]. Qed.

Lemma toLowerCase_idempotent s : toLowerCase (toLowerCase s) = toLowerCase s.
Proof.
  induction s as [|c s IH]; [done|].
  cbn [toLowerCase]. by rewrite lowerChar_idempotent, IH.
Qed.

(** ** Normalisation *)

Lemma lowerCased_keptValue value : lowerCased value = keptValue value.
Proof. by destruct value. Qed.

Lemma storedEntries_cons key v o :
  storedEntries ((key, v) :: o) =
    match keptValue v with
    | Some n => (toLowerCase key, n) :: storedEntries o
    | None => storedEntries o
    end.
Proof.
  unfold storedEntries. cbn [omap list_omap].
  change (storedEntry (key, v))
    with ((λ n, (toLowerCase key, n)) <$> keptValue v).
  by destruct (keptValue v).
Qed.

Lemma setLowerCased_storedEntry output entry :
  setLowerCased output entry =
    match storedEntry entry with
    | Some (name, n) => <[name := n]> output
    | None => output
    end.
Proof.
  destruct entry as [key v]. unfold setLowerCased, storedEntry.
  rewrite lowerCased_keptValue. cbn [fst snd]. by destruct (keptValue v).
Qed.

Lemma fold_setLowerCased jsonObject output :
  fold_left setLowerCased jsonObject output =
    list_to_map (reverse (storedEntries jsonObject)) ∪ output.
Proof.
  revert output. induction jsonObject as [|entry o IH]; intros output.
  { cbn. by rewrite (left_id_L ∅ (∪)). }
  cbn [fold_left]. rewrite IH, setLowerCased_storedEntry.
  unfold storedEntries. cbn [omap list_omap].
  destruct (storedEntry entry) as [[name n]|]; [|done].
  rewrite reverse_cons, list_to_map_app. cbn [list_to_map foldr].
  rewrite <- (assoc_L (∪)). f_equal.
  by rewrite insert_empty, <- insert_union_singleton_l.
Qed.

Lemma toLowerCasePropertyNames_list_to_map jsonObject :
  toLowerCasePropertyNames jsonObject = list_to_map (reverse (storedEntries jsonObject)).
Proof.
  unfold toLowerCasePropertyNames.
  by rewrite fold_setLowerCased, (right_id_L ∅ (∪)).
Qed.

Lemma lookup_fold_setLowerCased jsonObject output name :
  fold_left setLowerCased jsonObject output !! name =
    match last (omap (storedUnder name) jsonObject) with
    | Some n => Some n
    | None => output !! name
    end.
Proof.
  revert output. induction jsonObject as [|[key v] o IH]; intros output; [done|].
  cbn [fold_left omap list_omap]. rewrite IH, setLowerCased_storedEntry.
  unfold storedUnder at 2, storedEntry. cbn [fst snd].
  destruct (decide (toLowerCase key = name)) as [->|Hne].
  - destruct (keptValue v) as [n|]; cbn; [|done].
    rewrite last_cons, lookup_insert_eq. by destruct (last _).
  - destruct (keptValue v) as [n|]; cbn; [|done].
    by rewrite lookup_insert_ne.
Qed.

Lemma lookup_toLowerCasePropertyNames jsonObject name :
  toLowerCasePropertyNames jsonObject !! name =
    last (omap (storedUnder name) jsonObject).
Proof.
  unfold toLowerCasePropertyNames. rewrite lookup_fold_setLowerCased.
  by destruct (last _).
Qed.

Lemma keptValue_lowered value kept : keptValue value = Some kept → lowered kept.
Proof.
  revert kept. induction value as [| | | |l _|o IH] using jsvalue_nested_ind;
    intros kept Hkept; simplify_eq/=; constructor.
  intros name v Hv.
  rewrite toLowerCasePropertyNames_list_to_map in Hv.
  apply elem_of_list_to_map_2 in Hv.
  rewrite elem_of_reverse in Hv.
  apply list_elem_of_omap in Hv as ([key raw] & Hin & Hst).
  unfold storedEntry in Hst. cbn [fst snd] in Hst.
  destruct (keptValue raw) as [stored|] eqn:Hraw; simplify_eq/=.
  split; [apply toLowerCase_idempotent|].
  rewrite Forall_forall in IH. by apply (IH _ Hin).
Qed.

Lemma storedEntries_prune jsonObject :
  Forall (λ entry, keptValue entry.2 = pruneValue entry.2 ≫= keptValue) jsonObject →
  storedEntries jsonObject = storedEntries (prune jsonObject).
Proof.
  unfold storedEntries, prune.
  induction 1 as [|[key v] o Hv _ IH]; [done|].
  cbn [omap list_omap]. cbn [fst snd] in Hv.
  destruct (pruneValue v) as [v'|]; cbn [mbind option_bind] in Hv;
    cbn [fmap option_fmap option_map omap list_omap].
  - assert (storedEntry (key, v) = storedEntry (key, v')) as ->
      by (unfold storedEntry; cbn [fst snd]; by rewrite Hv).
    by rewrite IH.
  - assert (storedEntry (key, v) = None) as ->
      by (unfold storedEntry; cbn [fst snd]; by rewrite Hv).
    exact IH.
Qed.

Lemma keptValue_pruneValue value :
  keptValue value = pruneValue value ≫= keptValue.
Proof.
  induction value as [| | | |l _|o IH] using jsvalue_nested_ind; try done.
  cbn. do 2 f_equal.
  rewrite !toLowerCasePropertyNames_list_to_map.
  by rewrite (storedEntries_prune o IH).
Qed.

Lemma toLowerCasePropertyNames_prune jsonObject :
  toLowerCasePropertyNames jsonObject = toLowerCasePropertyNames (prune jsonObject).
Proof.
  pose proof (keptValue_pruneValue (JObject jsonObject)) as H.
  cbn in H. by simplify_eq.
Qed.

Lemma pruneValue_stringsAndObjectsOnly value pruned :
  pruneValue value = Some pruned → stringsAndObjectsOnly pruned = true.
Proof.
  revert pruned. induction value as [| | | |l _|o IH] using jsvalue_nested_ind;
    intros pruned Hp; simplify_eq/=; [done|].
  induction IH as [|[key v] o Hv _ IHo]; [done|].
  cbn [omap list_omap]. destruct (pruneValue v) as [v'|] eqn:Hv'; cbn; [|done].
  rewrite (Hv v' Hv'). exact IHo.
Qed.

(** ** Order of enumeration *)

Lemma storedEntries_keys jsonObject :
  (storedEntries jsonObject).*1 =
    omap (λ entry,
      match entry.2 with
      | JString _ | JObject _ => Some (toLowerCase entry.1)
      | _ => None
      end) jsonObject.
Proof.
  induction jsonObject as [|[key v] o IH]; [done|].
  rewrite storedEntries_cons. cbn [omap list_omap fst snd].
  destruct v; cbn; by rewrite ?IH.
Qed.

Lemma toLowerCasePropertyNames_NoDup jsonObject :
  NoDup (storedEntries jsonObject).*1 →
  toLowerCasePropertyNames jsonObject = list_to_map (storedEntries jsonObject).
Proof.
  intros Hnodup. rewrite toLowerCasePropertyNames_list_to_map.
  symmetry. apply list_to_map_proper; [done|].
  by rewrite reverse_Permutation.
Qed.

Lemma collisionFree_object o :
  collisionFree (JObject o) = true ↔
    NoDup (storedEntries o).*1 ∧ Forall (λ entry, collisionFree entry.2 = true) o.
Proof.
  cbn [collisionFree]. rewrite andb_true_iff, bool_decide_eq_true.
  rewrite storedEntries_keys, forallb_forall, Forall_forall.
  split; intros [? H]; (split; [done|]); intros x; specialize (H x);
    by rewrite ?list_elem_of_In in *.
Qed.

Lemma storedEntries_Forall2 o o2 :
  Forall (λ entry, ∀ v2, reordered entry.2 v2 → keptValue entry.2 = keptValue v2) o →
  Forall2 (λ e1 e2, e1.1 = e2.1 ∧ reordered e1.2 e2.2) o o2 →
  storedEntries o = storedEntries o2.
Proof.
  intros Hall Hrel. revert Hall.
  induction Hrel as [|[k1 v1] [k2 v2] o o2 [Hk Hv] _ IH]; intros Hall; [done|].
  apply Forall_cons in Hall as [H1 Hall]. cbn [fst snd] in *. subst k2.
  by rewrite !storedEntries_cons, (H1 v2 Hv), (IH Hall).
Qed.

Lemma keptValue_reordered v1 v2 :
  reordered v1 v2 → collisionFree v1 = true → keptValue v1 = keptValue v2.
Proof.
  revert v2. induction v1 as [| | | |l _|o1 IH] using jsvalue_nested_ind;
    intros v2 Hr Hcf; inversion Hr as [| | | | |? o o2 Hperm Hrel]; subst; try done.
  apply collisionFree_object in Hcf as [Hnodup Hcf].
  cbn [keptValue]. do 2 f_equal.
  assert (storedEntries o = storedEntries o2) as Heq.
  { apply storedEntries_Forall2; [|done].
    rewrite <- Hperm. rewrite Forall_forall in *.
    intros entry Hin v2 Hv2. apply (IH _ Hin _ Hv2), (Hcf _ Hin). }
  assert (storedEntries o1 ≡ₚ storedEntries o) as Hse
    by (unfold storedEntries; by rewrite Hperm).
  rewrite !toLowerCasePropertyNames_NoDup; [|by rewrite <- Heq, <- Hse|done].
  rewrite <- Heq. by apply list_to_map_proper.
Qed.

Lemma toLowerCasePropertyNames_reordered o1 o2 :
  reordered (JObject o1) (JObject o2) → collisionFree (JObject o1) = true →
  toLowerCasePropertyNames o1 = toLowerCasePropertyNames o2.
Proof.
  intros Hr Hcf. pose proof (keptValue_reordered _ _ Hr Hcf) as H.
  cbn in H. by simplify_eq.
Qed.

(** ** Conversion and property reads *)

Lemma lookup_convertMapToObject map name :
  name ≠ "__proto__" →
  convertMapToObject map !! name = convertValue <$> map !! name.
Proof.
  intros Hne. unfold convertMapToObject.
  by rewrite lookup_delete_ne, lookup_fmap.
Qed.

Lemma convertValue_object m :
  convertValue (NObject m) = NObject (convertMapToObject m).
Proof. done. Qed.

(** A property of a normalised response is the last value the loop stored
    under its name, converted. *)
Lemma getProperty_normalized response name :
  name ≠ "__proto__" →
  getProperty (normalized response) name =
    match last (omap (storedUnder name) response) with
    | Some n => Val (convertValue n)
    | None => Undefined
    end.
Proof.
  intros Hne. unfold normalized, getProperty.
  rewrite lookup_convertMapToObject, lookup_toLowerCasePropertyNames by done.
  by destruct (last _).
Qed.

Lemma normalized_wrapper key name fields :
  toLowerCase key = name → name ≠ "__proto__" →
  normalized [(key, JObject fields)] = NObject {[ name := normalized fields ]}.
Proof.
  intros <- Hne. unfold normalized, toLowerCasePropertyNames, convertMapToObject.
  cbn [fold_left setLowerCased lowerCased].
  fold (toLowerCasePropertyNames fields).
  rewrite fmap_insert, fmap_empty, delete_insert_ne, delete_empty by done.
  by rewrite insert_empty.
Qed.

Lemma unwrap_wrapper name m :
  unwrap name (NObject {[ name := NObject m ]}) = NObject m.
Proof. unfold unwrap, getProperty. by rewrite lookup_singleton_eq. Qed.

Lemma unwrap_not_truthy name response :
  ToBoolean (getProperty response name) = false → unwrap name response = response.
Proof.
  unfold unwrap. destruct (getProperty response name) as [| |v]; [done..|].
  by intros ->.
Qed.

(** ** The constructor, by cases *)

Lemma readURLs_cases createMeetingResponse :
  readURLs createMeetingResponse =
    match getProperty createMeetingResponse "mediaplacement" with
    | Val mediaplacement =>
        Normal {| audioHostURL := getProperty mediaplacement "audiohosturl";
                  screenDataURL := getProperty mediaplacement "screendataurl";
                  screenSharingURL := getProperty mediaplacement "screensharingurl";
                  screenViewingURL := getProperty mediaplacement "screenviewingurl";
                  signalingURL := getProperty mediaplacement "signalingurl";
                  turnControlURL := getProperty mediaplacement "turncontrolurl" |}
    | Undefined | Null => TypeError
    end.
Proof. unfold readURLs. by destruct (getProperty _ "mediaplacement"). Qed.

(** The constructor reads its arguments through [normalized] only. *)
Lemma constructor_normalized m1 m2 a1 a2 b :
  normalized <$> m1 = normalized <$> m2 →
  normalized <$> a1 = normalized <$> a2 →
  constructor m1 a1 b = constructor m2 a2 b.
Proof.
  intros Hm Ha. unfold constructor. rewrite Ha.
  destruct m1 as [r1|], m2 as [r2|]; try done.
  apply (inj Some) in Hm. by rewrite Hm.
Qed.

Section constructor_cases.

Local Arguments normalized : simpl never.
Local Arguments unwrap : simpl never.
Local Arguments getProperty : simpl never.

Lemma constructor_without_meeting a b :
  ∃ this, constructor None a b = Normal this
    ∧ meetingId this = Null
    ∧ urls this = None
    ∧ credentials this =
        (λ response, readCredentials (unwrap "attendee" (normalized response))) <$> a
    ∧ videoDownlinkBandwidthPolicy this =
        Some (AllHighestVideoBandwidthPolicy (selfAttendeeId this))
    ∧ videoUplinkBandwidthPolicy this =
        Some (NScaleVideoUplinkBandwidthPolicy (selfAttendeeId this)).
Proof.
  eexists. split; [reflexivity|]. by destruct a, b.
Qed.

Lemma constructor_with_meeting response a b :
  let resolved := unwrap "meeting" (normalized response) in
  match getProperty resolved "mediaplacement" with
  | Val mediaplacement =>
      ∃ this, constructor (Some response) a b = Normal this
        ∧ meetingId this = getProperty resolved "meetingid"
        ∧ urls this =
            Some {| audioHostURL := getProperty mediaplacement "audiohosturl";
                    screenDataURL := getProperty mediaplacement "screendataurl";
                    screenSharingURL := getProperty mediaplacement "screensharingurl";
                    screenViewingURL := getProperty mediaplacement "screenviewingurl";
                    signalingURL := getProperty mediaplacement "signalingurl";
                    turnControlURL := getProperty mediaplacement "turncontrolurl" |}
        ∧ credentials this =
            (λ response, readCredentials (unwrap "attendee" (normalized response))) <$> a
        ∧ videoDownlinkBandwidthPolicy this =
            Some (AllHighestVideoBandwidthPolicy (selfAttendeeId this))
        ∧ videoUplinkBandwidthPolicy this =
            Some (NScaleVideoUplinkBandwidthPolicy (selfAttendeeId this))
  | Undefined | Null => constructor (Some response) a b = TypeError
  end.
Proof.
  intros resolved. unfold constructor. fold resolved.
  rewrite readURLs_cases.
  destruct (getProperty resolved "mediaplacement") as [| |mediaplacement];
    [done..|].
  eexists. split; [reflexivity|]. by destruct a, b.
Qed.

End constructor_cases.

(** Every completed construction is one of the two cases above. *)
Ltac constructor_inv H :=
  lazymatch type of H with
  | constructor ?m ?a ?b = Normal ?this =>
      let Hc := fresh "Hc" in
      let Hrun := fresh "Hrun" in
      destruct m as [?response|];
      [ pose proof (constructor_with_meeting response a b) as Hc;
        cbv zeta in Hc;
        destruct (getProperty (unwrap "meeting" (normalized response)) "mediaplacement")
          as [| |?mediaplacement] eqn:?Hmp;
        [congruence..|]
      | pose proof (constructor_without_meeting a b) as Hc ];
      destruct Hc as (?this' & Hrun & ?HmeetingId & ?Hurls & ?Hcredentials
                        & ?Hdownlink & ?Huplink);
      rewrite Hrun in H; injection H as <-
  end.

(** ** Wrapped and flat shapes *)

Lemma unwrap_wrapIn key name fields :
  toLowerCase key = name → name ≠ "__proto__" →
  unwrap name (normalized (wrapIn key fields)) = normalized fields.
Proof.
  intros Hkey Hne. unfold wrapIn.
  rewrite (normalized_wrapper key name fields Hkey Hne).
  apply unwrap_wrapper.
Qed.

Lemma unwrap_flat name fields :
  holdsWrapper name fields = false →
  unwrap name (normalized fields) = normalized fields.
Proof. apply unwrap_not_truthy. Qed.

(** A response none of whose keys lower-cases to the wrapper name is flat. *)
Lemma holdsWrapper_no_key name fields :
  name ≠ "__proto__" →
  Forall (λ entry, toLowerCase entry.1 ≠ name) fields →
  holdsWrapper name fields = false.
Proof.
  intros Hne Hkeys. unfold holdsWrapper.
  rewrite getProperty_normalized by done.
  assert (omap (storedUnder name) fields = []) as ->; [|done].
  induction Hkeys as [|entry o Hentry _ IH]; [done|].
  cbn [omap list_omap]. unfold storedUnder at 1.
  by rewrite decide_False.
Qed.

(** ** Order of enumeration and construction *)

Lemma normalized_reordered m1 m2 :
  reorderedResponse m1 m2 → collisionFreeResponse m1 = true →
  toLowerCasePropertyNames <$> m1 = toLowerCasePropertyNames <$> m2.
Proof.
  destruct 1 as [o1 o2 Hr|]; [|done]. cbn. intros Hcf.
  by rewrite (toLowerCasePropertyNames_reordered o1 o2).
Qed.

(** ** Lower case, and fields in terms of the response *)

Lemma lowerChar_lowerCase c :
  negb (isUpperCase (lowerChar c))
  && (Ascii.eqb c (lowerChar c)
      || (isUpperCase c
          && (nat_of_ascii (lowerChar c) =? nat_of_ascii c + 32)%nat)) = true.
Proof. by destruct c as [[] [] [] [] [] [] [] []]. Qed.

Lemma lowerCaseOf_toLowerCase key : lowerCaseOf key (toLowerCase key) = true.
Proof.
  induction key as [|c key IH]; [done|].
  cbn [toLowerCase lowerCaseOf]. by rewrite lowerChar_lowerCase, IH.
Qed.

Lemma noUpperCase_toLowerCase key : noUpperCase (toLowerCase key) = true.
Proof.
  induction key as [|c key IH]; [done|].
  cbn [toLowerCase noUpperCase]. rewrite IH, andb_true_r.
  pose proof (lowerChar_lowerCase c) as H.
  by apply andb_true_iff in H as [H _].
Qed.

Lemma keptValue_withoutUpperCase value kept :
  keptValue value = Some kept → withoutUpperCase kept.
Proof.
  revert kept. induction value as [| | | |l _|o IH] using jsvalue_nested_ind;
    intros kept Hkept; simplify_eq/=; constructor.
  intros name v Hv.
  rewrite toLowerCasePropertyNames_list_to_map in Hv.
  apply elem_of_list_to_map_2 in Hv.
  rewrite elem_of_reverse in Hv.
  apply list_elem_of_omap in Hv as ([key raw] & Hin & Hst).
  unfold storedEntry in Hst. cbn [fst snd] in Hst.
  destruct (keptValue raw) as [stored|] eqn:Hraw; simplify_eq/=.
  split; [apply noUpperCase_toLowerCase|].
  rewrite Forall_forall in IH. by apply (IH _ Hin).
Qed.

Lemma last_storedUnder_lastStored name response :
  last (omap (storedUnder name) response) = lastStored name response ≫= keptValue.
Proof.
  unfold lastStored.
  induction response as [|[key v] o IH] using rev_ind; [done|].
  rewrite !omap_app, !last_app. cbn [omap list_omap fst snd].
  destruct (decide (toLowerCase key = name)) as [Hkey|Hkey].
  - assert (storedUnder name (key, v) = keptValue v) as ->
      by (unfold storedUnder; cbn [fst snd]; by rewrite decide_True).
    destruct v; cbn; try exact IH; done.
  - assert (storedUnder name (key, v) = None) as ->
      by (unfold storedUnder; cbn [fst snd]; by rewrite decide_False).
    exact IH.
Qed.

Lemma getProperty_unwrap_fieldOfResponse root name response :
  root ≠ "__proto__" → name ≠ "__proto__" →
  getProperty (unwrap root (normalized response)) name
    = fieldOfResponse root name response.
Proof.
  intros Hroot Hname. unfold unwrap, fieldOfResponse.
  rewrite (getProperty_normalized response root Hroot), last_storedUnder_lastStored.
  destruct (lastStored root response) as [[| | |s| |fields]|];
    cbn [mbind option_bind keptValue];
    try (by rewrite getProperty_normalized).
  - cbn [convertValue ToBoolean].
    destruct (String.eqb s EmptyString); cbn [negb];
      [by rewrite getProperty_normalized|done].
  - rewrite convertValue_object. cbn [ToBoolean].
    fold (normalized fields). by rewrite getProperty_normalized.
Qed.

(** * The claims *)

(** C1, as stated, fails: a meeting response without the nested URL
    structure makes the constructor throw. *)
Lemma missing_mediaplacement_faults :
  constructor (Some meetingIdOnly) None false = TypeError
  ∧ ¬ (∀ m a b, ∃ this, constructor m a b = Normal this).
Proof.
  assert (constructor (Some meetingIdOnly) None false = TypeError) as Hfault
    by (vm_compute; reflexivity).
  split; [done|].
  intros Hnever. destruct (Hnever (Some meetingIdOnly) None false) as [this Hrun].
  congruence.
Qed.

(** C1, amended.  The constructor throws exactly when a meeting response is
    supplied whose normalised and unwrapped structure has no [mediaplacement]
    property, and it then throws whatever else the inputs hold.  In every
    other case it completes: the meeting identifier and each URL slot hold
    the property of that name, [undefined] when that is missing. *)
Theorem constructor_faults_iff_no_mediaplacement m a b :
  match m with
  | None =>
      ∃ this, constructor m a b = Normal this
        ∧ meetingId this = Null ∧ urls this = None
  | Some response =>
      let resolved := unwrap "meeting" (normalized response) in
      match getProperty resolved "mediaplacement" with
      | Val mediaplacement =>
          ∃ this, constructor m a b = Normal this
            ∧ meetingId this = getProperty resolved "meetingid"
            ∧ urls this =
                Some {| audioHostURL := getProperty mediaplacement "audiohosturl";
                        screenDataURL := getProperty mediaplacement "screendataurl";
                        screenSharingURL := getProperty mediaplacement "screensharingurl";
                        screenViewingURL := getProperty mediaplacement "screenviewingurl";
                        signalingURL := getProperty mediaplacement "signalingurl";
                        turnControlURL := getProperty mediaplacement "turncontrolurl" |}
      | Undefined | Null => constructor m a b = TypeError
      end
  end.
Proof.
  destruct m as [response|].
  - pose proof (constructor_with_meeting response a b) as Hc. cbv zeta in Hc |- *.
    destruct (getProperty _ "mediaplacement"); [done..|].
    destruct Hc as (this & Hrun & HmeetingId & Hurls & _). by exists this.
  - destruct (constructor_without_meeting a b) as (this & Hrun & HmeetingId & Hurls & _).
    by exists this.
Qed.

(** C2.  Building from the wrapped shape, whose root key is [Meeting] or
    [Attendee] in any letter-casing, and building from the flat shape with
    the same fields give the same result, hence the same [meetingId], [urls]
    and [credentials]. *)
Theorem wrapped_flat_equivalent meetingKey attendeeKey m a b :
  toLowerCase meetingKey = "meeting" →
  toLowerCase attendeeKey = "attendee" →
  flatResponse "meeting" m = true →
  flatResponse "attendee" a = true →
  constructor (wrapIn meetingKey <$> m) (wrapIn attendeeKey <$> a) b
    = constructor m a b.
Proof.
  intros Hm Ha Hflatm Hflata. unfold constructor.
  assert (∀ fields, a = Some fields →
            unwrap "attendee" (normalized (wrapIn attendeeKey fields))
              = unwrap "attendee" (normalized fields)) as Hattendee.
  { intros fields ->. cbn in Hflata. apply negb_true_iff in Hflata.
    by rewrite unwrap_wrapIn, unwrap_flat. }
  assert (∀ fields, m = Some fields →
            unwrap "meeting" (normalized (wrapIn meetingKey fields))
              = unwrap "meeting" (normalized fields)) as Hmeeting.
  { intros fields ->. cbn in Hflatm. apply negb_true_iff in Hflatm.
    by rewrite unwrap_wrapIn, unwrap_flat. }
  destruct m as [meeting|], a as [attendee|];
    cbn [fmap option_fmap option_map];
    rewrite ?(Hmeeting _ eq_refl), ?(Hattendee _ eq_refl); reflexivity.
Qed.

(** Scenario 1 against scenario 2, with the attendee response of scenario 3
    wrapped and flat. *)
Lemma wrapped_flat_equivalent_scenarios :
  constructor (Some scenario1) (Some [("Attendee", JObject scenario3)]) false
    = constructor (Some scenario2) (Some scenario3) false.
Proof.
  apply (wrapped_flat_equivalent "Meeting" "Attendee" (Some scenario2) (Some scenario3));
    vm_compute; reflexivity.
Defined.

(** C3, as stated, fails: two enumeration orders of a response in which two
    keys have the same lower-casing normalise differently, and the
    constructor reads a different meeting identifier. *)
Lemma colliding_keys_order_dependent :
  collidingFirst ≡ₚ collidingSecond
  ∧ toLowerCasePropertyNames collidingFirst !! "meetingid" = Some (NString "m2")
  ∧ toLowerCasePropertyNames collidingSecond !! "meetingid" = Some (NString "m1")
  ∧ toLowerCasePropertyNames collidingFirst ≠ toLowerCasePropertyNames collidingSecond
  ∧ ∃ this1 this2,
      constructor (Some collidingFirst) None false = Normal this1
      ∧ constructor (Some collidingSecond) None false = Normal this2
      ∧ meetingId this1 = Val (NString "m2")
      ∧ meetingId this2 = Val (NString "m1").
Proof.
  assert (toLowerCasePropertyNames collidingFirst !! "meetingid" = Some (NString "m2"))
    as H1 by (vm_compute; reflexivity).
  assert (toLowerCasePropertyNames collidingSecond !! "meetingid" = Some (NString "m1"))
    as H2 by (vm_compute; reflexivity).
  split; [apply perm_swap|]. do 2 (split; [done|]). split.
  - intros Heq. rewrite Heq, H2 in H1. discriminate.
  - do 2 eexists. split; [vm_compute; reflexivity|].
    split; [vm_compute; reflexivity|]. done.
Qed.

(** C3, amended.  For responses whose keys are ASCII and in which no two
    stored properties of one structure have the same lower-cased key, at any
    depth, the order in which the properties of any structure are enumerated
    changes neither the normalised response nor the result of the
    constructor. *)
Theorem normalization_order_independent m1 m2 a1 a2 b :
  reorderedResponse m1 m2 →
  reorderedResponse a1 a2 →
  asciiKeysResponse m1 = true →
  asciiKeysResponse a1 = true →
  collisionFreeResponse m1 = true →
  collisionFreeResponse a1 = true →
  toLowerCasePropertyNames <$> m1 = toLowerCasePropertyNames <$> m2
  ∧ toLowerCasePropertyNames <$> a1 = toLowerCasePropertyNames <$> a2
  ∧ constructor m1 a1 b = constructor m2 a2 b.
Proof.
  intros Hm Ha _ _ Hcfm Hcfa.
  pose proof (normalized_reordered m1 m2 Hm Hcfm) as Hnm.
  pose proof (normalized_reordered a1 a2 Ha Hcfa) as Hna.
  do 2 (split; [done|]).
  apply constructor_normalized; unfold normalized.
  - destruct m1, m2; simplify_eq/=; [|done]. by do 3 f_equal.
  - destruct a1, a2; simplify_eq/=; [|done]. by do 3 f_equal.
Qed.

(** A response enumerated in two orders, at the root and in the nested
    structure. *)
Lemma normalization_order_independent_example :
  toLowerCasePropertyNames orderedFirst = toLowerCasePropertyNames orderedSecond
  ∧ constructor (Some orderedFirst) None true = constructor (Some orderedSecond) None true.
Proof.
  assert (reordered (JObject orderedFirst) (JObject orderedSecond)) as Hr.
  { eapply reordered_object; [apply perm_swap|].
    repeat constructor.
    eapply reordered_object; [apply perm_swap|].
    repeat constructor. }
  destruct (normalization_order_independent
              (Some orderedFirst) (Some orderedSecond) None None true)
    as (Hm & _ & Hc).
  - by constructor.
  - constructor.
  - vm_compute; reflexivity.
  - reflexivity.
  - vm_compute; reflexivity.
  - reflexivity.
  - split; [|exact Hc]. by apply (inj Some) in Hm.
Defined.

(** C4.  With both arguments absent the constructed configuration has
    [meetingId], [credentials] and [urls] absent and the documented defaults
    in the timeouts and the feature flags. *)
Theorem defaults_when_both_absent (screenShareSendsOnlyKeyframes : bool) :
  ∃ this, constructor None None screenShareSendsOnlyKeyframes = Normal this
    ∧ meetingId this = Null
    ∧ credentials this = None
    ∧ urls this = None
    ∧ connectionTimeoutMs this = 15000%Z
    ∧ screenSharingTimeoutMs this = 5000%Z
    ∧ screenViewingTimeoutMs this = 5000%Z
    ∧ attendeePresenceTimeoutMs this = 0%Z
    ∧ enableWebAudio this = false
    ∧ enableUnifiedPlanForChromiumBasedBrowsers this = true
    ∧ enableSimulcastForUnifiedPlanChromiumBasedBrowsers this = false.
Proof.
  eexists. split; [reflexivity|].
  by destruct screenShareSendsOnlyKeyframes.
Qed.

(** C5.  Both default policies are constructed with the attendee identifier
    read from the resolved attendee response, and with an absent identifier
    when no attendee response is supplied. *)
Theorem default_policies_attendee_id m a b this :
  constructor m a b = Normal this →
  match a with
  | Some response =>
      ∀ X, getProperty (unwrap "attendee" (normalized response)) "attendeeid"
             = Val (NString X) →
        videoDownlinkBandwidthPolicy this
          = Some (AllHighestVideoBandwidthPolicy (Val (NString X)))
        ∧ videoUplinkBandwidthPolicy this
          = Some (NScaleVideoUplinkBandwidthPolicy (Val (NString X)))
  | None =>
      videoDownlinkBandwidthPolicy this = Some (AllHighestVideoBandwidthPolicy Null)
      ∧ videoUplinkBandwidthPolicy this = Some (NScaleVideoUplinkBandwidthPolicy Null)
  end.
Proof.
  intros H.
  constructor_inv H; rewrite Hdownlink, Huplink; unfold selfAttendeeId;
    rewrite Hcredentials; destruct a as [attendee|]; cbn;
    try done; by intros X ->.
Qed.

(** The attendee response [{"AttendeeId": "X"}] alone. *)
Lemma default_policies_attendee_id_example :
  ∃ this, constructor None (Some attendeeIdOnly) false = Normal this
    ∧ videoDownlinkBandwidthPolicy this
        = Some (AllHighestVideoBandwidthPolicy (Val (NString "X")))
    ∧ videoUplinkBandwidthPolicy this
        = Some (NScaleVideoUplinkBandwidthPolicy (Val (NString "X"))).
Proof.
  eexists. split; [reflexivity|].
  apply (default_policies_attendee_id None (Some attendeeIdOnly) false _ eq_refl "X").
  reflexivity.
Defined.

(** C6.  What normalisation yields for a response with ASCII keys.  Each
    key is stored in lower case: [toLowerCase] gives the spelling without
    upper-case letters, and no key of the result, at any depth, has one.
    Under each name the result holds the value stored for the last property,
    in the order of the loop, whose key lower-cases to that name and whose
    value is a string, stored as it is, or a nested structure, stored
    normalised; a property with a value of any other kind stores nothing.
    So removing from the input, at every depth, the properties whose value
    is neither a string nor a nested structure leaves the result unchanged. *)
Theorem toLowerCasePropertyNames_spec (jsonObject : list (string * jsvalue)) :
  asciiKeys (JObject jsonObject) = true →
  (∀ name, toLowerCasePropertyNames jsonObject !! name
             = last (omap (storedUnder name) jsonObject))
  ∧ (∀ key, lowerCaseOf key (toLowerCase key) = true)
  ∧ (∀ value, lowerCased value = keptValue value)
  ∧ lowered (NObject (toLowerCasePropertyNames jsonObject))
  ∧ withoutUpperCase (NObject (toLowerCasePropertyNames jsonObject))
  ∧ toLowerCasePropertyNames jsonObject = toLowerCasePropertyNames (prune jsonObject)
  ∧ stringsAndObjectsOnly (JObject (prune jsonObject)) = true.
Proof.
  intros _.
  split; [apply lookup_toLowerCasePropertyNames|].
  split; [apply lowerCaseOf_toLowerCase|].
  split; [apply lowerCased_keptValue|].
  split; [by apply (keptValue_lowered (JObject jsonObject))|].
  split; [by apply (keptValue_withoutUpperCase (JObject jsonObject))|].
  split; [apply toLowerCasePropertyNames_prune|].
  by apply (pruneValue_stringsAndObjectsOnly (JObject jsonObject)).
Qed.

(** A response with a string, a number, an array and a nested structure
    that holds a string and a boolean, under keys with upper-case letters. *)
Lemma toLowerCasePropertyNames_spec_mixedKinds :
  toLowerCasePropertyNames mixedKinds !! "meetingid" = Some (NString "m1")
  ∧ toLowerCasePropertyNames mixedKinds !! "MeetingId" = None
  ∧ toLowerCasePropertyNames mixedKinds !! "count" = None
  ∧ toLowerCasePropertyNames mixedKinds !! "tags" = None
  ∧ toLowerCasePropertyNames mixedKinds !! "mediaplacement"
      = Some (NObject {[ "audiohosturl" := NString "a" ]})
  ∧ lowerCaseOf "MeetingId" "meetingid" = true
  ∧ toLowerCase "MeetingId" = "meetingid".
Proof.
  destruct (toLowerCasePropertyNames_spec mixedKinds eq_refl) as (Hlookup & Hlower & _).
  rewrite !Hlookup. repeat split; try (vm_compute; reflexivity).
Defined.

(** C7.  Scenario 1: the wrapped meeting response alone yields meeting
    identifier ["m1"], the six URLs in their slots, and no credentials. *)
Theorem scenario1_result (screenShareSendsOnlyKeyframes : bool) :
  ∃ this, constructor (Some scenario1) None screenShareSendsOnlyKeyframes = Normal this
    ∧ meetingId this = Val (NString "m1")
    ∧ urls this = Some {| audioHostURL := Val (NString "a");
                          screenDataURL := Val (NString "b");
                          screenSharingURL := Val (NString "c");
                          screenViewingURL := Val (NString "d");
                          signalingURL := Val (NString "e");
                          turnControlURL := Val (NString "f") |}
    ∧ credentials this = None.
Proof.
  destruct screenShareSendsOnlyKeyframes;
    (eexists; split; [vm_compute; reflexivity|]); done.
Qed.

(** C8, as stated, fails: an attendee response with one of the three fields
    gives a credentials record that holds one value and lacks two, and a
    meeting response with one of the six URLs gives a URLs record that holds
    one value and lacks five. *)
Lemma credentials_partially_populated :
  ∃ this c u, constructor (Some audioHostOnly) (Some attendeeIdOnly) false = Normal this
    ∧ credentials this = Some c
    ∧ attendeeId c = Val (NString "X")
    ∧ externalUserId c = Undefined
    ∧ joinToken c = Undefined
    ∧ partiallyPopulated (credentialSlots c) = true
    ∧ urls this = Some u
    ∧ audioHostURL u = Val (NString "a")
    ∧ signalingURL u = Undefined
    ∧ partiallyPopulated (urlSlots u) = true.
Proof. do 3 eexists. split; [vm_compute; reflexivity|]. by vm_compute. Qed.

(** C8, amended.  After a construction that completes, the URLs record
    is present exactly when a meeting response was supplied and the
    credentials record exactly when an attendee response was supplied.  A
    record that is present has each of its slots assigned the property of
    that name of the resolved response, which is [undefined] when the
    property is missing. *)
Theorem records_present_iff_supplied m a b this :
  constructor m a b = Normal this →
  (is_Some (urls this) ↔ is_Some m)
  ∧ (is_Some (credentials this) ↔ is_Some a)
  ∧ (∀ u, urls this = Some u →
       ∃ response mediaplacement,
         m = Some response
         ∧ getProperty (unwrap "meeting" (normalized response)) "mediaplacement"
             = Val mediaplacement
         ∧ u = {| audioHostURL := getProperty mediaplacement "audiohosturl";
                  screenDataURL := getProperty mediaplacement "screendataurl";
                  screenSharingURL := getProperty mediaplacement "screensharingurl";
                  screenViewingURL := getProperty mediaplacement "screenviewingurl";
                  signalingURL := getProperty mediaplacement "signalingurl";
                  turnControlURL := getProperty mediaplacement "turncontrolurl" |})
  ∧ (∀ c, credentials this = Some c →
       ∃ response,
         a = Some response
         ∧ let resolved := unwrap "attendee" (normalized response) in
           c = {| attendeeId := getProperty resolved "attendeeid";
                  externalUserId := getProperty resolved "externaluserid";
                  joinToken := getProperty resolved "jointoken" |}).
Proof.
  intros H.
  constructor_inv H; rewrite Hurls, Hcredentials; rewrite ?fmap_is_Some.
  all: repeat split; eauto; try tauto.
  all: try (intros u [= <-]; by eauto).
  all: try by intros [? ?].
  all: destruct a as [attendee|]; intros c [= <-]; by eauto.
Qed.

(** Both responses supplied, as in scenarios 1 and 3: both records present. *)
Lemma records_present_iff_supplied_example :
  ∃ this, constructor (Some scenario1) (Some scenario3) false = Normal this
    ∧ is_Some (urls this) ∧ is_Some (credentials this).
Proof.
  eexists. split; [vm_compute; reflexivity|].
  pose proof (records_present_iff_supplied (Some scenario1) (Some scenario3) false _
                ltac:(vm_compute; reflexivity)) as (Hurls & Hcredentials & _).
  split; [apply Hurls | apply Hcredentials]; eauto.
Defined.

(** C9.  The attendee path never faults.  With no meeting response the
    construction completes; with one, it faults with an attendee response
    exactly when it faults without.  When it completes, the credentials
    record exists and each of its three fields is what the resolved attendee
    response holds under that name, [undefined] when it holds nothing there
    or is a string.  For a response with ASCII keys that is, in terms of the
    response: the last value stored under that name in the structure under
    the root key [attendee], or in the response itself when it has no such
    root key. *)
Theorem attendee_path_total m response b :
  let resolved := unwrap "attendee" (normalized response) in
  let field name :=
    match resolved with
    | NObject fields =>
        match fields !! name with
        | Some v => Val v
        | None => Undefined
        end
    | NString _ => Undefined
    end in
  let expected :=
    {| attendeeId := field "attendeeid";
       externalUserId := field "externaluserid";
       joinToken := field "jointoken" |} in
  (∃ this, constructor None (Some response) b = Normal this
     ∧ credentials this = Some expected)
  ∧ match constructor m None b with
    | Normal _ =>
        ∃ this, constructor m (Some response) b = Normal this
          ∧ credentials this = Some expected
    | TypeError => constructor m (Some response) b = TypeError
    end
  ∧ (asciiKeys (JObject response) = true →
     expected =
       {| attendeeId := fieldOfResponse "attendee" "attendeeid" response;
          externalUserId := fieldOfResponse "attendee" "externaluserid" response;
          joinToken := fieldOfResponse "attendee" "jointoken" response |}).
Proof.
  intros resolved field expected.
  change expected with (readCredentials resolved). split; [|split].
  - destruct (constructor_without_meeting (Some response) b)
      as (this & Hrun & _ & _ & Hcredentials & _).
    by exists this.
  - destruct m as [meeting|].
    + pose proof (constructor_with_meeting meeting (Some response) b) as Hsome.
      pose proof (constructor_with_meeting meeting None b) as Hnone.
      cbv zeta in Hsome, Hnone.
      destruct (getProperty (unwrap "meeting" (normalized meeting)) "mediaplacement").
      * by rewrite Hnone.
      * by rewrite Hnone.
      * destruct Hnone as (? & -> & _).
        destruct Hsome as (this & Hrun & _ & _ & Hcredentials & _).
        by exists this.
    + destruct (constructor_without_meeting None b) as (? & -> & _).
      destruct (constructor_without_meeting (Some response) b)
        as (this & Hrun & _ & _ & Hcredentials & _).
      by exists this.
  - intros _. unfold readCredentials, resolved.
    by rewrite !getProperty_unwrap_fieldOfResponse.
Qed.

(** The wrapped attendee response [{"Attendee": {"AttendeeId": "att1"}}]:
    one credential is present, two are absent. *)
Lemma attendee_path_total_wrappedAttendeeIdOnly :
  ∃ this, constructor None (Some wrappedAttendeeIdOnly) false = Normal this
    ∧ credentials this = Some {| attendeeId := Val (NString "att1");
                                 externalUserId := Undefined;
                                 joinToken := Undefined |}.
Proof.
  destruct (attendee_path_total None wrappedAttendeeIdOnly false)
    as ((this & Hrun & Hcredentials) & _ & Hfields).
  exists this. split; [exact Hrun|].
  rewrite Hcredentials, (Hfields eq_refl). vm_compute. reflexivity.
Defined.

(** C10.  The field initialisers leave both bandwidth policies absent, and
    every construction that completes has constructed both. *)
Theorem policies_always_constructed m a b this :
  constructor m a b = Normal this →
  videoDownlinkBandwidthPolicy fieldInitializers = None
  ∧ videoUplinkBandwidthPolicy fieldInitializers = None
  ∧ is_Some (videoDownlinkBandwidthPolicy this)
  ∧ is_Some (videoUplinkBandwidthPolicy this).
Proof.
  intros H. constructor_inv H; rewrite Hdownlink, Huplink; eauto.
Qed.

(** Both responses absent. *)
Lemma policies_always_constructed_both_absent :
  ∃ this, constructor None None false = Normal this
    ∧ is_Some (videoDownlinkBandwidthPolicy this)
    ∧ is_Some (videoUplinkBandwidthPolicy this).
Proof.
  eexists. split; [reflexivity|].
  eapply (policies_always_constructed None None false). reflexivity.
Defined.

(** * Further properties *)

(** ** Normalisation *)

Lemma storedEntries_app o1 o2 :
  storedEntries (o1 ++ o2)%list = (storedEntries o1 ++ storedEntries o2)%list.
Proof. unfold storedEntries. apply omap_app. Qed.

(** X1.  Normalising the concatenation of two property lists gives the union
    of the two results in which the later list wins. *)
Theorem toLowerCasePropertyNames_app (o1 o2 : list (string * jsvalue)) :
  toLowerCasePropertyNames (o1 ++ o2)%list
    = toLowerCasePropertyNames o2 ∪ toLowerCasePropertyNames o1.
Proof.
  rewrite !toLowerCasePropertyNames_list_to_map, storedEntries_app.
  by rewrite reverse_app, list_to_map_app.
Qed.

Lemma keptValue_sameUpToCase v1 v2 :
  sameUpToCase v1 v2 → keptValue v1 = keptValue v2.
Proof.
  revert v2. induction v1 as [| | | |l _|o1 IH] using jsvalue_nested_ind;
    intros v2 Hs; inversion Hs as [| | | | |? o2 Hrel]; subst; try done.
  cbn [keptValue]. do 2 f_equal.
  rewrite !toLowerCasePropertyNames_list_to_map. f_equal. f_equal.
  clear Hs. revert IH. induction Hrel as [|[k1 v1] [k2 v2] o1 o2 [Hk Hv] _ IHrel];
    intros IH; [done|].
  apply Forall_cons in IH as [H1 IH]. cbn [fst snd] in *.
  by rewrite !storedEntries_cons, Hk, (H1 v2 Hv), (IHrel IH).
Qed.

Lemma sameUpToCaseResponse_normalized r1 r2 :
  sameUpToCaseResponse r1 r2 →
  toLowerCasePropertyNames <$> r1 = toLowerCasePropertyNames <$> r2.
Proof.
  intros [o1 o2 Hs|]; [|done]. cbn.
  pose proof (keptValue_sameUpToCase _ _ Hs) as H. cbn [keptValue] in H.
  injection H as H. by rewrite H.
Qed.

Lemma constructor_sameUpToCase m1 m2 a1 a2 b :
  sameUpToCaseResponse m1 m2 →
  sameUpToCaseResponse a1 a2 →
  constructor m1 a1 b = constructor m2 a2 b.
Proof.
  intros Hm Ha.
  pose proof (sameUpToCaseResponse_normalized _ _ Hm) as Hnm.
  pose proof (sameUpToCaseResponse_normalized _ _ Ha) as Hna.
  apply constructor_normalized; unfold normalized.
  - destruct m1, m2; simplify_eq/=; [|done]. by do 3 f_equal.
  - destruct a1, a2; simplify_eq/=; [|done]. by do 3 f_equal.
Qed.

(** X2.  The letter-casing of the keys, at any depth, changes neither the
    normalised response nor the result of the constructor. *)
Theorem letter_casing_of_keys_irrelevant m1 m2 a1 a2 b :
  sameUpToCaseResponse m1 m2 →
  sameUpToCaseResponse a1 a2 →
  toLowerCasePropertyNames <$> m1 = toLowerCasePropertyNames <$> m2
  ∧ toLowerCasePropertyNames <$> a1 = toLowerCasePropertyNames <$> a2
  ∧ constructor m1 a1 b = constructor m2 a2 b.
Proof.
  intros Hm Ha.
  split; [by apply sameUpToCaseResponse_normalized|].
  split; [by apply sameUpToCaseResponse_normalized|].
  by apply constructor_sameUpToCase.
Qed.

(** Scenario 4 against scenario 1. *)
Lemma letter_casing_of_keys_irrelevant_scenarios :
  constructor (Some scenario4) None false = constructor (Some scenario1) None false.
Proof.
  apply (letter_casing_of_keys_irrelevant (Some scenario4) (Some scenario1) None None).
  - repeat constructor.
  - constructor.
Defined.

(** ** Conversion *)

Lemma depth_lookup m name v : m !! name = Some v → depth v < depth (NObject m).
Proof.
  intros H. cbn [depth]. apply Nat.lt_succ_r.
  rewrite <- (insert_delete_id m name v H).
  rewrite map_fold_insert_L; [lia|intros; lia|apply lookup_delete_eq].
Qed.

Lemma nvalue_nested_ind (P : nvalue → Prop) :
  (∀ s, P (NString s)) →
  (∀ m, (∀ name v, m !! name = Some v → P v) → P (NObject m)) →
  ∀ v, P v.
Proof.
  intros Hstring Hobject v. remember (depth v) as n eqn:Hn. revert v Hn.
  induction n as [n IH] using lt_wf_ind. intros [s|m] ->; [apply Hstring|].
  apply Hobject. intros name v Hv. eapply IH; [|reflexivity].
  by eapply depth_lookup.
Qed.

Lemma lookup_convertMapToObject_decide map name :
  convertMapToObject map !! name
    = if decide (name = "__proto__") then None else convertValue <$> map !! name.
Proof.
  case_decide as Hname.
  - subst name. apply lookup_delete_eq.
  - by apply lookup_convertMapToObject.
Qed.

Lemma convertValue_protoFree v : protoFree (convertValue v).
Proof.
  induction v as [s|m IH] using nvalue_nested_ind; cbn [convertValue];
    constructor.
  - apply lookup_delete_eq.
  - intros name v. fold (convertMapToObject m).
    rewrite lookup_convertMapToObject_decide. case_decide; [done|].
    destruct (m !! name) as [v0|] eqn:Hv0; [|done].
    intros [= <-]. by eapply IH.
Qed.

Lemma protoFree_convertValue v : protoFree v → convertValue v = v.
Proof.
  induction v as [s|m IH] using nvalue_nested_ind; [done|].
  inversion 1 as [|? Hproto Hall]; subst. cbn [convertValue]. f_equal.
  apply map_eq. intros name. fold (convertMapToObject m).
  rewrite lookup_convertMapToObject_decide. case_decide as Hname; [by subst|].
  destruct (m !! name) as [v0|] eqn:Hv0; [|done].
  cbn. f_equal. eauto.
Qed.

(** X3.  The converted object has no key [__proto__], at any depth, and
    under every other name it holds the converted value of the map. *)
Theorem convertMapToObject_lookup (map : gmap string nvalue) :
  protoFree (NObject (convertMapToObject map))
  ∧ ∀ name, convertMapToObject map !! name
              = if decide (name = "__proto__") then None
                else convertValue <$> map !! name.
Proof.
  split.
  - apply (convertValue_protoFree (NObject map)).
  - apply lookup_convertMapToObject_decide.
Qed.

Lemma storedUnder_noProtoKey o :
  noProtoKey (JObject o) = true →
  Forall (λ entry, storedUnder "__proto__" entry = None
                   ∧ (∀ kept, keptValue entry.2 = Some kept →
                        noProtoKey entry.2 = true)) o.
Proof.
  cbn [noProtoKey]. rewrite forallb_forall, Forall_forall.
  intros H [key v] Hin. apply list_elem_of_In, H in Hin. cbn [fst snd] in *.
  unfold storedUnder. cbn [fst snd].
  destruct v; cbn in *; try (by case_decide);
    apply andb_true_iff in Hin as [Hkey Hv];
    apply negb_true_iff, String.eqb_neq in Hkey;
    (split; [by rewrite decide_False|done]).
Qed.

Lemma keptValue_protoFree value kept :
  noProtoKey value = true → keptValue value = Some kept → protoFree kept.
Proof.
  revert kept. induction value as [| | | |l _|o IH] using jsvalue_nested_ind;
    intros kept Hno Hkept; simplify_eq/=; [constructor|].
  apply storedUnder_noProtoKey in Hno.
  constructor.
  - rewrite lookup_toLowerCasePropertyNames.
    assert (omap (storedUnder "__proto__") o = []) as ->; [|done].
    clear IH. induction Hno as [|entry o [Hentry _] _ IHo]; [done|].
    cbn [omap list_omap]. by rewrite Hentry.
  - intros name v Hv.
    rewrite toLowerCasePropertyNames_list_to_map in Hv.
    apply elem_of_list_to_map_2 in Hv.
    rewrite elem_of_reverse in Hv.
    apply list_elem_of_omap in Hv as ([key raw] & Hin & Hst).
    unfold storedEntry in Hst. cbn [fst snd] in Hst.
    destruct (keptValue raw) as [stored|] eqn:Hraw; simplify_eq/=.
    rewrite Forall_forall in IH, Hno.
    destruct (Hno _ Hin) as [_ Hnoraw].
    by apply (IH _ Hin); [apply (Hnoraw v)|].
Qed.

(** X5.  On the normalised copy of a response in which no stored key, at any
    depth, lower-cases to [__proto__], conversion changes nothing. *)
Theorem convertMapToObject_identity (jsonObject : list (string * jsvalue)) :
  noProtoKey (JObject jsonObject) = true →
  convertMapToObject (toLowerCasePropertyNames jsonObject)
    = toLowerCasePropertyNames jsonObject.
Proof.
  intros Hno.
  pose proof (keptValue_protoFree (JObject jsonObject) _ Hno eq_refl) as Hfree.
  apply protoFree_convertValue in Hfree. cbn [convertValue] in Hfree.
  by injection Hfree.
Qed.

(** Scenario 1. *)
Lemma convertMapToObject_identity_scenario1 :
  convertMapToObject (toLowerCasePropertyNames scenario1)
    = toLowerCasePropertyNames scenario1.
Proof. apply convertMapToObject_identity. vm_compute. reflexivity. Defined.

(** ** What the constructor reads *)

Lemma getProperty_rawField response name :
  name ≠ "__proto__" → getProperty (normalized response) name = rawField name response.
Proof. apply getProperty_normalized. Qed.

Lemma last_omap_middle {A B} (f : A → option B) before entry after :
  Forall (λ e, f e = None) after →
  last (omap f (before ++ entry :: after)%list) =
    match f entry with
    | Some x => Some x
    | None => last (omap f before)
    end.
Proof.
  intros Hafter.
  assert (omap f after = []) as Hnil.
  { induction Hafter as [|e after He _ IH]; [done|].
    cbn [omap list_omap]. by rewrite He. }
  rewrite omap_app. cbn [omap list_omap]. rewrite Hnil.
  destruct (f entry) as [x|].
  - apply last_snoc.
  - by rewrite (right_id_L [] (++)%list).
Qed.

Lemma unwrap_resolvesTo name response fields :
  name ≠ "__proto__" →
  resolvesTo name response fields →
  unwrap name (normalized response) = normalized fields.
Proof.
  intros Hne [flat Hflat|before key inner after Hkey Hafter].
  - by apply unwrap_flat.
  - unfold unwrap. rewrite getProperty_rawField by done. unfold rawField.
    rewrite last_omap_middle by done.
    unfold storedUnder at 1. cbn [fst snd keptValue].
    by rewrite decide_True.
Qed.

(** The constructor uses a meeting response through the two reads of the
    resolved structure only, and an attendee response through the
    credentials read from the resolved structure only. *)
Lemma constructor_reads m1 m2 a1 a2 b :
  option_Forall2 (λ r1 r2,
    getProperty (unwrap "meeting" (normalized r1)) "meetingid"
      = getProperty (unwrap "meeting" (normalized r2)) "meetingid"
    ∧ readURLs (unwrap "meeting" (normalized r1))
      = readURLs (unwrap "meeting" (normalized r2))) m1 m2 →
  option_Forall2 (λ r1 r2,
    readCredentials (unwrap "attendee" (normalized r1))
      = readCredentials (unwrap "attendee" (normalized r2))) a1 a2 →
  constructor m1 a1 b = constructor m2 a2 b.
Proof.
  intros Hm Ha. unfold constructor.
  destruct Hm as [r1 r2 [Hid Hurls]|]; [rewrite Hid, Hurls|];
    destruct Ha as [s1 s2 Hcred|]; cbn [fmap option_fmap option_map];
    by rewrite ?Hcred.
Qed.

(** Two structures with the same root key, the same meeting identifier and
    the same URL reads are read alike. *)
Lemma reads_unwrap_meeting n1 n2 :
  getProperty n1 "meeting" = getProperty n2 "meeting" →
  getProperty n1 "meetingid" = getProperty n2 "meetingid" →
  readURLs n1 = readURLs n2 →
  getProperty (unwrap "meeting" n1) "meetingid"
    = getProperty (unwrap "meeting" n2) "meetingid"
  ∧ readURLs (unwrap "meeting" n1) = readURLs (unwrap "meeting" n2).
Proof.
  intros Hroot Hid Hurls. unfold unwrap. rewrite Hroot.
  destruct (getProperty n2 "meeting") as [| |v]; [done..|].
  by destruct (ToBoolean (Val v)).
Qed.

Lemma reads_unwrap_attendee n1 n2 :
  Forall (λ name, getProperty n1 name = getProperty n2 name) attendeeNames →
  readCredentials (unwrap "attendee" n1) = readCredentials (unwrap "attendee" n2).
Proof.
  intros Hall. repeat (apply Forall_cons in Hall as [? Hall]).
  unfold unwrap. replace (getProperty n1 "attendee") with (getProperty n2 "attendee").
  destruct (getProperty n2 "attendee") as [| |v];
    [| |destruct (ToBoolean (Val v)); [done|]];
    unfold readCredentials; congruence.
Qed.

Lemma omap_storedUnder_keepRead names name response :
  name ∈ names →
  omap (storedUnder name) (keepRead names response)
    = omap (storedUnder name) response.
Proof.
  intros Hname. unfold keepRead.
  induction response as [|[key v] o IH]; [done|].
  rewrite filter_cons. cbn [fst snd]. case_decide as Hkey.
  - cbn [omap list_omap]. by rewrite IH.
  - cbn [omap list_omap]. rewrite IH.
    assert (storedUnder name (key, v) = None) as ->; [|done].
    unfold storedUnder. cbn [fst snd].
    rewrite decide_False; [done|]. intros Heq. by subst name.
Qed.

Lemma getProperty_keepRead names name response :
  name ∈ names → name ≠ "__proto__" →
  getProperty (normalized (keepRead names response)) name
    = getProperty (normalized response) name.
Proof.
  intros Hin Hne. rewrite !getProperty_rawField by done.
  unfold rawField. by rewrite omap_storedUnder_keepRead.
Qed.

(** X6.  For responses with ASCII keys, the properties at the root of a
    response whose key lower-cases to none of the names the constructor reads
    there do not affect the result: removing them all gives the same
    result. *)
Theorem unread_root_properties_ignored m a b :
  asciiKeysResponse m = true →
  asciiKeysResponse a = true →
  constructor m a b
    = constructor (keepRead meetingNames <$> m) (keepRead attendeeNames <$> a) b.
Proof.
  intros _ _.
  assert (∀ r name, name ∈ meetingNames →
            getProperty (normalized r) name
              = getProperty (normalized (keepRead meetingNames r)) name) as Hm.
  { intros r name Hin. symmetry. apply getProperty_keepRead; [done|].
    intros ->. revert Hin. apply (bool_decide_unpack _). by vm_compute. }
  assert (∀ r name, name ∈ attendeeNames →
            getProperty (normalized r) name
              = getProperty (normalized (keepRead attendeeNames r)) name) as Ha.
  { intros r name Hin. symmetry. apply getProperty_keepRead; [done|].
    intros ->. revert Hin. apply (bool_decide_unpack _). by vm_compute. }
  apply constructor_reads.
  - destruct m as [r|]; constructor.
    apply reads_unwrap_meeting; rewrite ?readURLs_cases;
      rewrite <- !Hm by (apply (bool_decide_unpack _); by vm_compute); done.
  - destruct a as [r|]; constructor.
    apply reads_unwrap_attendee, Forall_forall. intros name Hin. by apply Ha.
Qed.

(** Scenarios 2 and 3 with properties that are not read at their roots. *)
Lemma unread_root_properties_ignored_scenarios :
  constructor (Some scenario2WithRegion) (Some scenario3WithCapabilities) false
    = constructor (Some scenario2) (Some scenario3) false.
Proof.
  apply (unread_root_properties_ignored
           (Some scenario2WithRegion) (Some scenario3WithCapabilities) false);
    vm_compute; reflexivity.
Defined.

Lemma storedUnder_eq_keptValue key name v :
  toLowerCase key = name → storedUnder name (key, v) = keptValue v.
Proof. intros Hkey. unfold storedUnder. cbn [fst snd]. by rewrite decide_True. Qed.

Lemma storedUnder_object key name o :
  toLowerCase key = name →
  storedUnder name (key, JObject o) = Some (NObject (toLowerCasePropertyNames o)).
Proof. intros Hkey. unfold storedUnder. cbn [fst snd]. by rewrite decide_True. Qed.

Lemma storedUnder_string key name s :
  toLowerCase key = name → storedUnder name (key, JString s) = Some (NString s).
Proof. intros Hkey. unfold storedUnder. cbn [fst snd]. by rewrite decide_True. Qed.

Lemma storedUnder_other key name v :
  toLowerCase key ≠ name → storedUnder name (key, v) = None.
Proof. intros Hkey. unfold storedUnder. cbn [fst snd]. by rewrite decide_False. Qed.

Lemma rawField_middle name before entry after :
  rawField name (before ++ entry :: after)%list =
    match last (omap (storedUnder name) after) with
    | Some n => Val (convertValue n)
    | None =>
        match storedUnder name entry with
        | Some n => Val (convertValue n)
        | None => rawField name before
        end
    end.
Proof.
  unfold rawField. rewrite omap_app, last_app. cbn [omap list_omap].
  destruct (storedUnder name entry) as [n|].
  - rewrite last_cons. by destruct (last _).
  - by destruct (last _).
Qed.

(** X7.  A response is read through the structure it resolves to: the
    properties beside the root wrapper, and the earlier properties that the
    wrapper overwrites, do not affect the result. *)
Theorem resolved_structure_decides m fm a fa b :
  option_Forall2 (resolvesTo "meeting") m fm →
  option_Forall2 (resolvesTo "attendee") a fa →
  flatResponse "meeting" fm = true →
  flatResponse "attendee" fa = true →
  constructor m a b = constructor fm fa b.
Proof.
  intros Hm Ha Hfm Hfa. apply constructor_reads.
  - destruct Hm as [r fields Hr|]; constructor.
    cbn in Hfm. apply negb_true_iff in Hfm.
    by rewrite (unwrap_resolvesTo "meeting" r fields), (unwrap_flat "meeting" fields).
  - destruct Ha as [r fields Hr|]; constructor.
    cbn in Hfa. apply negb_true_iff in Hfa.
    by rewrite (unwrap_resolvesTo "attendee" r fields), (unwrap_flat "attendee" fields).
Qed.

(** Scenario 5, where the wrapper stands among other properties, against
    scenario 2. *)
Lemma resolved_structure_decides_scenario5 :
  constructor (Some scenario5) None true = constructor (Some scenario2) None true.
Proof.
  apply (resolved_structure_decides (Some scenario5) (Some scenario2) None None).
  - constructor.
    apply (resolvesTo_wrapped "meeting"
             [("MeetingId", JString "other"); ("Region", JString "us-east-1")]
             "Meeting" scenario2 [("Count", JNumber 3)]); [reflexivity|].
    by repeat constructor.
  - constructor.
  - vm_compute. reflexivity.
  - reflexivity.
Defined.

(** X8.  In the URL structure of a response, the properties whose key
    lower-cases to none of the six URL names do not affect the result. *)
Theorem unread_url_properties_ignored before key urlStructure after a b :
  toLowerCase key = "mediaplacement" →
  constructor (Some (before ++ (key, JObject urlStructure) :: after)%list) a b
    = constructor
        (Some (before ++ (key, JObject (keepRead urlNames urlStructure)) :: after)%list)
        a b.
Proof.
  intros Hkey.
  assert (∀ name, name ≠ "mediaplacement" → name ≠ "__proto__" →
            getProperty (normalized (before ++ (key, JObject urlStructure) :: after)%list) name
            = getProperty
                (normalized (before ++ (key, JObject (keepRead urlNames urlStructure))
                               :: after)%list) name) as Hsame.
  { intros name Hne Hproto. rewrite !getProperty_rawField, !rawField_middle by done.
    by rewrite !storedUnder_other by congruence. }
  apply constructor_reads; [|destruct a; by constructor]. constructor.
  apply reads_unwrap_meeting; [by apply Hsame..|].
  rewrite !readURLs_cases, !getProperty_rawField, !rawField_middle by done.
  destruct (last (omap (storedUnder "mediaplacement") after)) as [later|]; [done|].
  rewrite !(storedUnder_object key "mediaplacement") by done.
  rewrite !convertValue_object.
  fold (normalized urlStructure). fold (normalized (keepRead urlNames urlStructure)).
  by rewrite !(getProperty_keepRead urlNames)
    by (done || (apply (bool_decide_unpack _); by vm_compute)).
Qed.

(** A flat response whose URL structure holds one more property. *)
Lemma unread_url_properties_ignored_example :
  constructor (Some [("MediaPlacement",
                      JObject [("AudioHostUrl", JString "a"); ("Extra", JString "x")])])
              None false
    = constructor (Some [("MediaPlacement", JObject [("AudioHostUrl", JString "a")])])
                  None false.
Proof.
  apply (unread_url_properties_ignored [] "MediaPlacement"
           [("AudioHostUrl", JString "a"); ("Extra", JString "x")] [] None false).
  reflexivity.
Defined.

(** ** Results in terms of the responses *)

(** X9.  A meeting response whose root wrapper holds a non-empty string makes
    the constructor throw, whatever the response holds beside it. *)
Theorem string_meeting_wrapper_faults before key s after a b :
  toLowerCase key = "meeting" →
  s ≠ EmptyString →
  Forall (λ entry, storedUnder "meeting" entry = None) after →
  constructor (Some (before ++ (key, JString s) :: after)%list) a b = TypeError.
Proof.
  intros Hkey Hs Hafter.
  pose proof (constructor_with_meeting
                (before ++ (key, JString s) :: after)%list a b) as Hc.
  cbv zeta in Hc.
  assert (unwrap "meeting" (normalized (before ++ (key, JString s) :: after)%list)
            = NString s) as Hresolved.
  { unfold unwrap. rewrite getProperty_rawField by done. unfold rawField.
    rewrite last_omap_middle, storedUnder_string by done.
    cbn [convertValue ToBoolean].
    by apply String.eqb_neq in Hs as ->. }
  by rewrite Hresolved in Hc.
Qed.

(** The response [{"Meeting": "x"}] with complete flat fields beside it. *)
Lemma string_meeting_wrapper_faults_example :
  constructor (Some (scenario2 ++ [("Meeting", JString "x")])%list) None false
    = TypeError.
Proof.
  apply (string_meeting_wrapper_faults scenario2 "Meeting" "x" [] None false);
    [reflexivity|discriminate|constructor].
Defined.

(** X10.  An attendee response whose root wrapper holds a non-empty string
    does not make the constructor throw; the three credentials are
    [undefined], whatever the response holds beside the wrapper, and the two
    policies are constructed with [undefined]. *)
Theorem string_attendee_wrapper_credentials m before key s after b this :
  toLowerCase key = "attendee" →
  s ≠ EmptyString →
  Forall (λ entry, storedUnder "attendee" entry = None) after →
  constructor m (Some (before ++ (key, JString s) :: after)%list) b = Normal this →
  credentials this = Some {| attendeeId := Undefined;
                             externalUserId := Undefined;
                             joinToken := Undefined |}
  ∧ videoDownlinkBandwidthPolicy this = Some (AllHighestVideoBandwidthPolicy Undefined)
  ∧ videoUplinkBandwidthPolicy this = Some (NScaleVideoUplinkBandwidthPolicy Undefined).
Proof.
  intros Hkey Hs Hafter H.
  assert (unwrap "attendee" (normalized (before ++ (key, JString s) :: after)%list)
            = NString s) as Hresolved.
  { unfold unwrap. rewrite getProperty_rawField by done. unfold rawField.
    rewrite last_omap_middle, storedUnder_string by done.
    cbn [convertValue ToBoolean].
    by apply String.eqb_neq in Hs as ->. }
  constructor_inv H; unfold selfAttendeeId in *;
    rewrite Hcredentials in *; cbn [fmap option_fmap option_map] in *;
    rewrite Hresolved in *; by rewrite Hdownlink, Huplink.
Qed.

(** The response [{"AttendeeId": "att1", ..., "Attendee": "x"}]. *)
Lemma string_attendee_wrapper_credentials_example :
  ∃ this,
    constructor None (Some (scenario3 ++ [("Attendee", JString "x")])%list) false
      = Normal this
    ∧ credentials this = Some {| attendeeId := Undefined;
                                 externalUserId := Undefined;
                                 joinToken := Undefined |}.
Proof.
  eexists. split; [vm_compute; reflexivity|].
  apply (string_attendee_wrapper_credentials None scenario3 "Attendee" "x" [] false);
    [reflexivity|discriminate|constructor|vm_compute; reflexivity].
Defined.

(** X11.  The result for a meeting response, in terms of the structure it
    resolves to.  The constructor throws when no property of that structure
    is stored under [mediaplacement]: when there is none of that name, or
    its value is neither a string nor a nested structure.  Otherwise it
    completes; the meeting identifier is the last value stored under
    [meetingid], and each URL slot is read from the last value stored under
    [mediaplacement], which gives [undefined] when that value is a string. *)
Theorem meeting_result_of_response m fields a b :
  resolvesTo "meeting" m fields →
  match last (omap (storedUnder "mediaplacement") fields) with
  | None => constructor (Some m) a b = TypeError
  | Some mediaplacement =>
      ∃ this, constructor (Some m) a b = Normal this
        ∧ meetingId this = rawField "meetingid" fields
        ∧ urls this =
            Some {| audioHostURL :=
                      getProperty (convertValue mediaplacement) "audiohosturl";
                    screenDataURL :=
                      getProperty (convertValue mediaplacement) "screendataurl";
                    screenSharingURL :=
                      getProperty (convertValue mediaplacement) "screensharingurl";
                    screenViewingURL :=
                      getProperty (convertValue mediaplacement) "screenviewingurl";
                    signalingURL :=
                      getProperty (convertValue mediaplacement) "signalingurl";
                    turnControlURL :=
                      getProperty (convertValue mediaplacement) "turncontrolurl" |}
        ∧ (∀ s, mediaplacement = NString s →
             urls this = Some {| audioHostURL := Undefined;
                                 screenDataURL := Undefined;
                                 screenSharingURL := Undefined;
                                 screenViewingURL := Undefined;
                                 signalingURL := Undefined;
                                 turnControlURL := Undefined |})
  end.
Proof.
  intros Hr. pose proof (constructor_with_meeting m a b) as Hc. cbv zeta in Hc.
  rewrite (unwrap_resolvesTo "meeting" m fields) in Hc by done.
  rewrite !getProperty_rawField in Hc by done. unfold rawField at 1 in Hc.
  destruct (last (omap (storedUnder "mediaplacement") fields)) as [mediaplacement|];
    [|done].
  destruct Hc as (this & Hrun & HmeetingId & Hurls & _).
  exists this. do 3 (split; [done|]). intros s ->. by rewrite Hurls.
Qed.

(** Scenario 1, which resolves to scenario 2. *)
Lemma meeting_result_of_response_scenario1 :
  ∃ this, constructor (Some scenario1) None false = Normal this
    ∧ meetingId this = Val (NString "m1")
    ∧ ∃ u, urls this = Some u ∧ signalingURL u = Val (NString "e").
Proof.
  destruct (meeting_result_of_response scenario1 scenario2 None false)
    as (this & Hrun & HmeetingId & Hurls & _).
  { by apply (resolvesTo_wrapped "meeting" [] "Meeting" scenario2 []). }
  exists this. do 2 (split; [done|]). eexists. split; [exact Hurls|done].
Defined.

(** X12.  The result for an attendee response with ASCII keys, in terms of
    the structure it resolves to: each credential is the last value stored
    under its name, [undefined] when there is none, and both policies are
    constructed with what the attendee identifier holds. *)
Theorem attendee_result_of_response m a fields b this :
  asciiKeys (JObject a) = true →
  resolvesTo "attendee" a fields →
  constructor m (Some a) b = Normal this →
  credentials this = Some {| attendeeId := rawField "attendeeid" fields;
                             externalUserId := rawField "externaluserid" fields;
                             joinToken := rawField "jointoken" fields |}
  ∧ videoDownlinkBandwidthPolicy this
      = Some (AllHighestVideoBandwidthPolicy (rawField "attendeeid" fields))
  ∧ videoUplinkBandwidthPolicy this
      = Some (NScaleVideoUplinkBandwidthPolicy (rawField "attendeeid" fields)).
Proof.
  intros _ Hr H.
  constructor_inv H; unfold selfAttendeeId in *;
    rewrite Hcredentials in *; cbn [fmap option_fmap option_map] in *;
    rewrite (unwrap_resolvesTo "attendee" a fields) in * by done;
    unfold readCredentials in *;
    rewrite !getProperty_rawField in * by done;
    by rewrite Hdownlink, Huplink.
Qed.

(** An attendee response without an attendee identifier: the policies are
    constructed with [undefined]. *)
Lemma attendee_result_of_response_example :
  ∃ this, constructor None (Some [("JoinToken", JString "tok1")]) false = Normal this
    ∧ joinToken <$> credentials this = Some (Val (NString "tok1"))
    ∧ videoDownlinkBandwidthPolicy this
        = Some (AllHighestVideoBandwidthPolicy Undefined).
Proof.
  eexists. split; [vm_compute; reflexivity|].
  destruct (attendee_result_of_response None [("JoinToken", JString "tok1")]
              [("JoinToken", JString "tok1")] false _ eq_refl
              ltac:(apply resolvesTo_flat; vm_compute; reflexivity)
              ltac:(vm_compute; reflexivity)) as (Hcredentials & Hdownlink & _).
  split; [by rewrite Hcredentials|exact Hdownlink].
Defined.

(** ** What the constructor keeps apart *)

(** The fields a completed construction has written, each in terms of the
    response it is read from. *)
Lemma constructor_Normal_fields m a b this :
  constructor m a b = Normal this →
  meetingId this
    = from_option (λ r, getProperty (unwrap "meeting" (normalized r)) "meetingid") Null m
  ∧ urls this
    = match m with
      | Some r =>
          match readURLs (unwrap "meeting" (normalized r)) with
          | Normal u => Some u
          | TypeError => None
          end
      | None => None
      end
  ∧ credentials this
    = (λ r, readCredentials (unwrap "attendee" (normalized r))) <$> a
  ∧ videoDownlinkBandwidthPolicy this
    = Some (AllHighestVideoBandwidthPolicy (selfAttendeeId this))
  ∧ videoUplinkBandwidthPolicy this
    = Some (NScaleVideoUplinkBandwidthPolicy (selfAttendeeId this)).
Proof.
  intros H. constructor_inv H; cbn [from_option]; rewrite ?readURLs_cases, ?Hmp;
    by rewrite HmeetingId, Hurls, Hcredentials, Hdownlink, Huplink.
Qed.

(** X13.  The meeting identifier and the URLs depend on the meeting response
    alone; the credentials and the two policies depend on the attendee
    response alone. *)
Theorem responses_read_independently m m' a a' b b' this1 this2 this3 :
  constructor m a b = Normal this1 →
  constructor m a' b' = Normal this2 →
  constructor m' a b' = Normal this3 →
  meetingId this1 = meetingId this2
  ∧ urls this1 = urls this2
  ∧ credentials this1 = credentials this3
  ∧ videoDownlinkBandwidthPolicy this1 = videoDownlinkBandwidthPolicy this3
  ∧ videoUplinkBandwidthPolicy this1 = videoUplinkBandwidthPolicy this3.
Proof.
  intros H1 H2 H3.
  apply constructor_Normal_fields in H1 as (Hid1 & Hurls1 & Hcred1 & Hdown1 & Hup1).
  apply constructor_Normal_fields in H2 as (Hid2 & Hurls2 & _).
  apply constructor_Normal_fields in H3 as (_ & _ & Hcred3 & Hdown3 & Hup3).
  unfold selfAttendeeId in *.
  rewrite Hid1, Hid2, Hurls1, Hurls2, Hdown1, Hdown3, Hup1, Hup3, Hcred1, Hcred3.
  done.
Qed.

(** Scenario 1 with and without the attendee response of scenario 3, and
    scenario 3 with and without the meeting response of scenario 1. *)
Lemma responses_read_independently_scenarios :
  ∃ this1 this2 this3,
    constructor (Some scenario1) (Some scenario3) false = Normal this1
    ∧ constructor (Some scenario1) None true = Normal this2
    ∧ constructor None (Some scenario3) true = Normal this3
    ∧ urls this1 = urls this2
    ∧ credentials this1 = credentials this3.
Proof.
  do 3 eexists. do 3 (split; [vm_compute; reflexivity|]).
  destruct (responses_read_independently
              (Some scenario1) None (Some scenario3) None false true _ _ _
              ltac:(vm_compute; reflexivity) ltac:(vm_compute; reflexivity)
              ltac:(vm_compute; reflexivity)) as (_ & Hurls & Hcred & _).
  by split.
Defined.

(** X14.  Whether the constructor throws depends on the meeting response
    alone, not on the attendee response or on the browser. *)
Theorem fault_decided_by_meeting_response m a a' b b' :
  constructor m a b = TypeError → constructor m a' b' = TypeError.
Proof.
  intros H. destruct m as [response|].
  - pose proof (constructor_with_meeting response a b) as Hc.
    pose proof (constructor_with_meeting response a' b') as Hc'.
    cbv zeta in Hc, Hc'.
    destruct (getProperty _ "mediaplacement"); [done..|].
    destruct Hc as (this & Hrun & _). congruence.
  - destruct (constructor_without_meeting a b) as (this & Hrun & _). congruence.
Qed.

(** The meeting response [{"MeetingId": "m1"}] with scenario 3. *)
Lemma fault_decided_by_meeting_response_example :
  constructor (Some meetingIdOnly) (Some scenario3) true = TypeError.
Proof.
  apply (fault_decided_by_meeting_response (Some meetingIdOnly) None _ false).
  vm_compute. reflexivity.
Defined.

Section untouched_fields.

Local Arguments normalized : simpl never.
Local Arguments unwrap : simpl never.
Local Arguments getProperty : simpl never.

(** X15.  The screen sharing options of a completed construction hold the
    bit rate 384000 when the browser sends only keyframes when sharing a
    screen, and nothing otherwise, whatever the responses. *)
Theorem screen_sharing_options_by_browser m a b this :
  constructor m a b = Normal this →
  screenSharingSessionOptions this
    = {| bitRate := if b then Some 384000%Z else None |}.
Proof.
  unfold constructor. destruct m as [response|]; [rewrite readURLs_cases|];
    [destruct (getProperty _ "mediaplacement"); [done..|]|];
    destruct a, b; intros [= <-]; reflexivity.
Qed.

(** X16.  The constructor never writes the four timeouts, the three feature
    flags or the health policy configuration: after every completed
    construction they hold what the field initialisers gave them. *)
Theorem initialised_fields_kept m a b this :
  constructor m a b = Normal this →
  connectionTimeoutMs this = 15000%Z
  ∧ screenSharingTimeoutMs this = 5000%Z
  ∧ screenViewingTimeoutMs this = 5000%Z
  ∧ attendeePresenceTimeoutMs this = 0%Z
  ∧ enableWebAudio this = false
  ∧ enableUnifiedPlanForChromiumBasedBrowsers this = true
  ∧ enableSimulcastForUnifiedPlanChromiumBasedBrowsers this = false
  ∧ connectionHealthPolicyConfiguration this
      = connectionHealthPolicyConfiguration fieldInitializers.
Proof.
  unfold constructor. destruct m as [response|]; [rewrite readURLs_cases|];
    [destruct (getProperty _ "mediaplacement"); [done..|]|];
    destruct a, b; intros [= <-]; done.
Qed.

End untouched_fields.

(** Scenarios 1 and 3 on a browser that sends only keyframes. *)
Lemma screen_sharing_options_by_browser_example :
  ∃ this, constructor (Some scenario1) (Some scenario3) true = Normal this
    ∧ bitRate (screenSharingSessionOptions this) = Some 384000%Z.
Proof.
  eexists. split; [vm_compute; reflexivity|].
  by rewrite (screen_sharing_options_by_browser (Some scenario1) (Some scenario3) true _
                ltac:(vm_compute; reflexivity)).
Defined.

(** Scenarios 1 and 3. *)
Lemma initialised_fields_kept_example :
  ∃ this, constructor (Some scenario1) (Some scenario3) true = Normal this
    ∧ connectionTimeoutMs this = 15000%Z
    ∧ enableUnifiedPlanForChromiumBasedBrowsers this = true.
Proof.
  eexists. split; [vm_compute; reflexivity|].
  destruct (initialised_fields_kept (Some scenario1) (Some scenario3) true _
              ltac:(vm_compute; reflexivity)) as (H1 & _ & _ & _ & _ & H2 & _).
  by split.
Defined.

(** ** Empty results, [null] and [undefined] *)

(** X17.  Normalisation gives the empty map exactly when no property of the
    response has a string or a nested structure for value. *)
Theorem toLowerCasePropertyNames_empty_iff (jsonObject : list (string * jsvalue)) :
  toLowerCasePropertyNames jsonObject = ∅
  ↔ Forall (λ entry, keptValue entry.2 = None) jsonObject.
Proof.
  split.
  - intros Hempty. apply Forall_forall. intros [key v] Hin. cbn [snd].
    destruct (keptValue v) as [n|] eqn:Hv; [|done]. exfalso.
    assert (is_Some (toLowerCasePropertyNames jsonObject !! toLowerCase key)) as [x Hx].
    { rewrite lookup_toLowerCasePropertyNames.
      apply list_elem_of_split in Hin as (before & after & ->).
      rewrite omap_app, last_app. cbn [omap list_omap].
      rewrite (storedUnder_eq_keptValue key (toLowerCase key) v eq_refl), Hv.
      rewrite last_cons. destruct (last _); eauto. }
    by rewrite Hempty in Hx.
  - intros Hall. rewrite toLowerCasePropertyNames_list_to_map.
    assert (storedEntries jsonObject = []) as ->; [|done].
    induction Hall as [|[key v] o Hv _ IH]; [done|].
    rewrite storedEntries_cons. cbn [snd] in Hv. by rewrite Hv.
Qed.

Lemma getProperty_not_Null base name : getProperty base name ≠ Null.
Proof. destruct base as [s|m]; cbn; [done|]. by destruct (m !! name). Qed.

(** X18.  After a completed construction the meeting identifier is [null]
    exactly when no meeting response was supplied, and no slot of a URLs or
    credentials record is [null]: what a response lacks is [undefined]. *)
Theorem null_only_without_response m a b this :
  constructor m a b = Normal this →
  (meetingId this = Null ↔ m = None)
  ∧ (∀ u, urls this = Some u → Forall (λ x, x ≠ Null) (urlSlots u))
  ∧ (∀ c, credentials this = Some c → Forall (λ x, x ≠ Null) (credentialSlots c)).
Proof.
  intros H. constructor_inv H; rewrite HmeetingId, Hurls, Hcredentials.
  - split; [|split].
    + split; [|done]. intros Hnull. by apply getProperty_not_Null in Hnull.
    + intros u [= <-]. repeat constructor; apply getProperty_not_Null.
    + destruct a; intros c [= <-]. repeat constructor; apply getProperty_not_Null.
  - split; [|split]; [done|done|].
    destruct a; intros c [= <-]. repeat constructor; apply getProperty_not_Null.
Qed.

(** A meeting response without a meeting identifier: the identifier is
    [undefined], not [null]. *)
Lemma null_only_without_response_example :
  ∃ this, constructor (Some audioHostOnly) None false = Normal this
    ∧ meetingId this = Undefined
    ∧ meetingId this ≠ Null.
Proof.
  eexists. split; [vm_compute; reflexivity|]. split; [reflexivity|].
  destruct (null_only_without_response (Some audioHostOnly) None false _
              ltac:(vm_compute; reflexivity)) as (Hnull & _).
  intros Hid. by apply Hnull in Hid.
Defined.

(** ** The documented shapes *)

Lemma documented_shapes_lowerCaseKeys k v :
  spelled k →
  sameUpToCase (JObject [(kMeeting k, JObject (meetingFields k v))])
               (JObject [(kMeeting lowerCaseKeys, JObject (meetingFields lowerCaseKeys v))])
  ∧ sameUpToCase (JObject [(kAttendee k, JObject (attendeeFields k v))])
                 (JObject [(kAttendee lowerCaseKeys,
                            JObject (attendeeFields lowerCaseKeys v))])
  ∧ sameUpToCase (JObject (meetingFields k v)) (JObject (meetingFields lowerCaseKeys v))
  ∧ sameUpToCase (JObject (attendeeFields k v))
                 (JObject (attendeeFields lowerCaseKeys v)).
Proof.
  unfold spelled. cbn [fmap list_fmap]. intros [= H1 H2 H3 H4 H5 H6 H7 H8 H9 H10 H11 H12 H13].
  repeat split;
    repeat first
      [ apply sameUpToCase_string
      | apply sameUpToCase_object
      | apply Forall2_nil_2
      | apply Forall2_cons_2
      | split
      | (cbn [fst]; etrans; [eassumption|]; reflexivity) ].
Qed.

(** X19.  Both documented shapes come out as they went in: with any strings
    for the ten values, and the keys in any letter-casing, the constructor
    completes with the same result for the wrapped and for the flat shape;
    the meeting identifier, the six URLs and the three credentials are
    those strings, and both policies are constructed with the attendee
    identifier. *)
Theorem documented_shapes_round_trip k v (b : bool) :
  spelled k →
  ∃ this,
    constructor (Some [(kMeeting k, JObject (meetingFields k v))])
                (Some [(kAttendee k, JObject (attendeeFields k v))]) b = Normal this
    ∧ constructor (Some (meetingFields k v)) (Some (attendeeFields k v)) b = Normal this
    ∧ meetingId this = Val (NString (vMeetingId v))
    ∧ urls this = Some (expectedURLs v)
    ∧ credentials this = Some (expectedCredentials v)
    ∧ videoDownlinkBandwidthPolicy this
        = Some (AllHighestVideoBandwidthPolicy (Val (NString (vAttendeeId v))))
    ∧ videoUplinkBandwidthPolicy this
        = Some (NScaleVideoUplinkBandwidthPolicy (Val (NString (vAttendeeId v)))).
Proof.
  intros Hk.
  destruct (documented_shapes_lowerCaseKeys k v Hk) as (Hwm & Hwa & Hfm & Hfa).
  rewrite (constructor_sameUpToCase
             (Some [(kMeeting k, JObject (meetingFields k v))])
             (Some [(kMeeting lowerCaseKeys, JObject (meetingFields lowerCaseKeys v))])
             (Some [(kAttendee k, JObject (attendeeFields k v))])
             (Some [(kAttendee lowerCaseKeys, JObject (attendeeFields lowerCaseKeys v))])
             b) by by constructor.
  rewrite (constructor_sameUpToCase
             (Some (meetingFields k v)) (Some (meetingFields lowerCaseKeys v))
             (Some (attendeeFields k v)) (Some (attendeeFields lowerCaseKeys v))
             b) by by constructor.
  destruct v.
  destruct b; (eexists; split; [vm_compute; reflexivity|]);
    (split; [vm_compute; reflexivity|]); done.
Qed.

(** Scenarios 1 and 3, as the documentation spells the keys. *)
Lemma documented_shapes_round_trip_scenarios :
  ∃ this,
    constructor (Some scenario1)
                (Some [("Attendee", JObject (attendeeFields documentedKeys scenarioValues))])
                false = Normal this
    ∧ meetingId this = Val (NString "m1")
    ∧ credentials this = Some {| attendeeId := Val (NString "att1");
                                 externalUserId := Val (NString "ext1");
                                 joinToken := Val (NString "tok1") |}.
Proof.
  destruct (documented_shapes_round_trip documentedKeys scenarioValues false eq_refl)
    as (this & Hwrapped & _ & Hid & _ & Hcred & _).
  exists this. by repeat split.
Defined.
